(** * Pantry ingestion and serving scaling of the recipe recommender

    A shallow embedding of the algorithmic parts of
    [src/app/components/RecipeRecommender.tsx]:

    - [parseManualEntry]   (free-text pantry entry, lines 61-78),
    - [formatQuantity] and the ingredient list of [RecipeCard]
      (serving scaling, lines 124-138 and 186-200),
    - the post-processing of the vision predictions inside
      [detectIngredients] (lines 280-302).

    JavaScript values are modelled as the language defines them:
    a [number] is an IEEE 754 binary64 value ([spec_float] at precision 53,
    [emax] 1024), a string is a sequence of code units (here the code units
    below 256, Rocq's [ascii]), and the built-in functions the component
    calls ([String.prototype.trim], [split], [match], [toLowerCase],
    [parseFloat], [Number.prototype.toFixed], [Number.isInteger]) are
    written out after ECMA-262. *)

From Stdlib Require Import ZArith Bool List String Ascii Lia.
From Stdlib Require Import SpecFloat PrimFloat FloatOps.
From stdpp Require Import base gmap sets strings.
Import ListNotations.

Set Warnings "-inexact-float".
Local Open Scope string_scope.

(* ===================================================================== *)
(** * Completion records: normal return or a thrown exception *)
(* ===================================================================== *)

Inductive jsError : Type :=
| RangeError
| TypeError.

Inductive completion (A : Type) : Type :=
| Normal (a : A)
| Throw (e : jsError).

Arguments Normal {A} a.
Arguments Throw {A} e.

#[global] Instance completion_ret : MRet completion := @Normal.

#[global] Instance completion_bind : MBind completion :=
  fun A B (k : A -> completion B) (c : completion A) =>
    match c with
    | Normal a => k a
    | Throw e => Throw e
    end.

(* ===================================================================== *)
(** * Strings *)
(* ===================================================================== *)

Module JSString.

Definition code (c : ascii) : N := N_of_ascii c.

(** WhiteSpace and LineTerminator code points below 256: TAB, LF, VT, FF,
    CR, SP and NBSP. This is the set of [\s] and of [trim]. *)
Definition isWhiteSpace (c : ascii) : bool :=
  let n := code c in
  ((9 <=? n) && (n <=? 13) || (n =? 32) || (n =? 160))%N.

(** LineTerminator code points below 256: LF and CR. *)
Definition isLineTerminator (c : ascii) : bool :=
  let n := code c in ((n =? 10) || (n =? 13))%N.

(** [\d] *)
Definition isDigit (c : ascii) : bool :=
  let n := code c in ((48 <=? n) && (n <=? 57))%N.

(** [\w] : [A-Za-z0-9_] *)
Definition isWordChar (c : ascii) : bool :=
  let n := code c in
  ((48 <=? n) && (n <=? 57) || (65 <=? n) && (n <=? 90)
   || (97 <=? n) && (n <=? 122) || (n =? 95))%N.

(** [.] without the [s] flag: anything but a line terminator *)
Definition isDot (c : ascii) : bool := negb (isLineTerminator c).

Definition isChar (d c : ascii) : bool := Ascii.eqb d c.

Definition isEmpty (s : string) : bool :=
  match s with
  | EmptyString => true
  | String _ _ => false
  end.

Fixpoint trimStart (s : string) : string :=
  match s with
  | String c r => if isWhiteSpace c then trimStart r else s
  | EmptyString => EmptyString
  end.

Fixpoint trimEnd (s : string) : string :=
  match s with
  | String c r =>
      let r' := trimEnd r in
      if isWhiteSpace c && isEmpty r' then EmptyString else String c r'
  | EmptyString => EmptyString
  end.

Definition trim (s : string) : string := trimEnd (trimStart s).

(** [s.split(sep)] for a separator that matches exactly one code unit of
    class [sep]: [k] separators give [k + 1] pieces, empty ones included. *)
Fixpoint split (sep : ascii -> bool) (s : string) : list string :=
  match s with
  | EmptyString => [EmptyString]
  | String c r =>
      if sep c then EmptyString :: split sep r
      else match split sep r with
           | piece :: pieces => String c piece :: pieces
           | [] => [String c EmptyString]
           end
  end.

(** Lower-casing of one code unit below 256: the Latin capitals A-Z and
    U+00C0-U+00DE except the multiplication sign U+00D7. *)
Definition lowerChar (c : ascii) : ascii :=
  let n := code c in
  if ((65 <=? n) && (n <=? 90) || (192 <=? n) && (n <=? 222) && negb (n =? 215))%N
  then ascii_of_N (n + 32) else c.

Fixpoint toLowerCase (s : string) : string :=
  match s with
  | EmptyString => EmptyString
  | String c r => String (lowerChar c) (toLowerCase r)
  end.

Fixpoint allChars (p : ascii -> bool) (s : string) : bool :=
  match s with
  | EmptyString => true
  | String c r => p c && allChars p r
  end.

Fixpoint existsChar (p : ascii -> bool) (s : string) : bool :=
  match s with
  | EmptyString => false
  | String c r => p c || existsChar p r
  end.

(** Longest prefix of [s] whose characters satisfy [p], and what follows. *)
Fixpoint span (p : ascii -> bool) (s : string) : string * string :=
  match s with
  | String c r =>
      if p c then let '(a, b) := span p r in (String c a, b) else (EmptyString, s)
  | EmptyString => (EmptyString, EmptyString)
  end.

Fixpoint startsWith (pre s : string) : option string :=
  match pre, s with
  | EmptyString, _ => Some s
  | String a pre', String b s' => if Ascii.eqb a b then startsWith pre' s' else None
  | String _ _, EmptyString => None
  end.

(** [a.join(sep)] for an array of strings. *)
Fixpoint join (sep : string) (l : list string) : string :=
  match l with
  | [] => EmptyString
  | x :: r =>
      match r with
      | [] => x
      | _ :: _ => x ++ sep ++ join sep r
      end
  end.

(** [s.charAt(0)]: the first code unit as a string, or the empty string. *)
Definition charAt0 (s : string) : string :=
  match s with
  | String c _ => String c EmptyString
  | EmptyString => EmptyString
  end.

(** [s.slice(1)] *)
Definition slice1 (s : string) : string :=
  match s with
  | String _ r => r
  | EmptyString => EmptyString
  end.

End JSString.

(* ===================================================================== *)
(** * Regular expressions: a backtracking matcher *)
(* ===================================================================== *)

Module JSRegExp.
Import JSString.

(** The fragment of the pattern language the component uses. Quantifiers
    are greedy and range over a character class. *)
Inductive regex : Type :=
| Class (p : ascii -> bool)        (* one code unit of a class *)
| Star (p : ascii -> bool)         (* p* *)
| Plus (p : ascii -> bool)         (* p+ *)
| Seq (r1 r2 : regex)              (* r1 r2 *)
| Opt (r : regex)                  (* (?:r)? *)
| Group (i : nat) (r : regex)      (* the i-th capturing group *)
| Bol                              (* ^ without the m flag *)
| Eol.                             (* $ without the m flag *)

(** Matcher state: the index reached, the input from that index on, and
    the captures made so far (latest first). *)
Record mstate : Type := MState {
  pos : nat;
  rest : string;
  caps : list (nat * string)
}.

(** All ways [p*] can match at the start of [s], longest first: the order
    in which a greedy quantifier gives characters back. *)
Fixpoint many (p : ascii -> bool) (i : nat) (s : string) : list (nat * string) :=
  match s with
  | String c r => if p c then many p (S i) r ++ [(i, s)] else [(i, s)]
  | EmptyString => [(i, s)]
  end.

Definition resume (st : mstate) (x : nat * string) : mstate :=
  MState (fst x) (snd x) (caps st).

(** The captured text: [n] code units of [s]. *)
Fixpoint prefix (n : nat) (s : string) : string :=
  match n, s with
  | S k, String c r => String c (prefix k r)
  | _, _ => EmptyString
  end.

(** Every continuation state of [r] from [st], in the matcher's order of
    preference; backtracking takes the next one. *)
Fixpoint run (r : regex) (st : mstate) : list mstate :=
  match r with
  | Class p =>
      match rest st with
      | String c t => if p c then [MState (S (pos st)) t (caps st)] else []
      | EmptyString => []
      end
  | Star p => map (resume st) (many p (pos st) (rest st))
  | Plus p =>
      match rest st with
      | String c t => if p c then map (resume st) (many p (S (pos st)) t) else []
      | EmptyString => []
      end
  | Seq r1 r2 => flat_map (run r2) (run r1 st)
  | Opt r1 => run r1 st ++ [st]
  | Group i r1 =>
      map (fun st' => MState (pos st') (rest st')
                        ((i, prefix (pos st' - pos st) (rest st)) :: caps st'))
          (run r1 st)
  | Bol => if Nat.eqb (pos st) 0 then [st] else []
  | Eol => if isEmpty (rest st) then [st] else []
  end.

(** [RegExpBuiltinExec] for a pattern without the g and y flags: the
    first start index at which the pattern matches, in its preferred way. *)
Fixpoint execFrom (r : regex) (i : nat) (s : string) : option mstate :=
  match run r (MState i s []) with
  | st :: _ => Some st
  | [] =>
      match s with
      | String _ t => execFrom r (S i) t
      | EmptyString => None
      end
  end.

Definition exec (r : regex) (s : string) : option mstate := execFrom r 0 s.

(** Element [i] of the match array: [None] is [undefined], a group that
    took no part in the match. *)
Fixpoint group (i : nat) (cs : list (nat * string)) : option string :=
  match cs with
  | [] => None
  | (j, v) :: cs' => if Nat.eqb i j then Some v else group i cs'
  end.

End JSRegExp.

(* ===================================================================== *)
(** * Numbers: IEEE 754 binary64 *)
(* ===================================================================== *)

Module JSNumber.
Import JSString.
Local Open Scope Z_scope.

(** A Number value. NaN carries no payload, as in the language. The
    values the program computes with are the canonical ones
    ([valid_binary prec emax x = true]). *)
Definition number : Type := spec_float.

Definition isValid (x : number) : bool := valid_binary prec emax x.

Definition mul (x y : number) : number := SFmul prec emax x y.
Definition div (x y : number) : number := SFdiv prec emax x y.
Definition add (x y : number) : number := SFadd prec emax x y.

(** [x < y] and [x >= y]: both are false as soon as one side is NaN. *)
Definition lt (x y : number) : bool := SFltb x y.
Definition ge (x y : number) : bool := SFleb y x.

(** The Number nearest to the rational [p / q], ties to even, with sign
    [s]: the quotient is developed to enough bits and rounded once. *)
Definition roundRatio (s : bool) (p q : positive) : number :=
  let '(m, e, l) := SFdiv_core_binary prec emax (Zpos p) 0 (Zpos q) 0 in
  binary_round_aux prec emax s m e l.

(** The Number for the mathematical value [(-1)^s * n * 10^k], [0 <= n]. *)
Definition decimalValue (s : bool) (n k : Z) : number :=
  match n with
  | Zpos p =>
      if 0 <=? k then roundRatio s (p * Z.to_pos (10 ^ k)) 1
      else roundRatio s p (Z.to_pos (10 ^ (- k)))
  | _ => S754_zero s
  end.

(** The Number of an integer: the conversion applied to [array.length]. *)
Definition ofZ (z : Z) : number := binary_normalize prec emax z 0 false.

Definition digitValue (c : ascii) : Z := Z.of_N (code c) - 48.

(** The mathematical value of a run of decimal digits. *)
Fixpoint digitsValueFrom (acc : Z) (s : string) : Z :=
  match s with
  | EmptyString => acc
  | String c r => digitsValueFrom (acc * 10 + digitValue c) r
  end.

Definition digitsValue (s : string) : Z := digitsValueFrom 0 s.

(** ExponentPart at the start of [s], or no exponent. *)
Definition parseExponent (s : string) : Z :=
  match s with
  | String c r =>
      if isChar "e" c || isChar "E" c then
        let '(neg, r') :=
          match r with
          | String d t =>
              if isChar "-" d then (true, t)
              else if isChar "+" d then (false, t)
              else (false, r)
          | EmptyString => (false, r)
          end in
        let '(ds, _) := span isDigit r' in
        if isEmpty ds then 0 else if neg then - digitsValue ds else digitsValue ds
      else 0
  | EmptyString => 0
  end.

(** The longest prefix of [s] that is a StrUnsignedDecimalLiteral, as a
    Number of sign [neg]; NaN when there is none. *)
Definition parseUnsigned (neg : bool) (s : string) : number :=
  match startsWith "Infinity" s with
  | Some _ => S754_infinity neg
  | None =>
      let '(int, r1) := span isDigit s in
      let '(frac, r2) :=
        match r1 with
        | String c t => if isChar "." c then span isDigit t else (EmptyString, r1)
        | EmptyString => (EmptyString, r1)
        end in
      if isEmpty int && isEmpty frac then S754_nan
      else decimalValue neg (digitsValue (int ++ frac))
             (parseExponent r2 - Z.of_nat (String.length frac))
  end.

(** [parseFloat(s)] *)
Definition parseFloat (s : string) : number :=
  match trimStart s with
  | String c r =>
      if isChar "-" c then parseUnsigned true r
      else if isChar "+" c then parseUnsigned false r
      else parseUnsigned false (String c r)
  | EmptyString => S754_nan
  end.

(** The value of a decimal literal of the source text. *)
Definition lit (s : string) : number := parseFloat s.


(** Literals of the source text. *)
Definition num_0 : number := Eval vm_compute in lit "0".
Definition num_1 : number := Eval vm_compute in lit "1".
Definition num_2 : number := Eval vm_compute in lit "2".
Definition num_0_4 : number := Eval vm_compute in lit "0.4".

(** [Number.isInteger(x)]: finite, and its mathematical value
    [m * 2^e] is an integer. *)
Definition isInteger (x : number) : bool :=
  match x with
  | S754_zero _ => true
  | S754_finite _ m e => (0 <=? e) || (Zpos m mod 2 ^ (- e) =? 0)
  | _ => false
  end.

(** Structural equality of Number values ([+0] and [-0] differ). *)
Definition sameNumber (x y : number) : bool :=
  match x, y with
  | S754_zero s, S754_zero t => Bool.eqb s t
  | S754_infinity s, S754_infinity t => Bool.eqb s t
  | S754_nan, S754_nan => true
  | S754_finite s m e, S754_finite t n f => Bool.eqb s t && (m =? n)%positive && (e =? f)
  | _, _ => false
  end.

Definition digitChar (d : Z) : ascii := ascii_of_N (48 + Z.to_N d).

Fixpoint decimalDigitsFuel (fuel : nat) (n : Z) (acc : string) : string :=
  match fuel with
  | O => acc
  | S k =>
      let acc' := String (digitChar (n mod 10)) acc in
      if n <? 10 then acc' else decimalDigitsFuel k (n / 10) acc'
  end.

(** The decimal representation of an integer [0 <= n], no leading zero
    ("0" for zero). A number has at most [log2 n + 1] decimal digits. *)
Definition decimalDigits (n : Z) : string :=
  decimalDigitsFuel (S (Z.to_nat (Z.log2 n))) n EmptyString.

Fixpoint zeros (k : nat) : string :=
  match k with
  | O => EmptyString
  | S k' => String "0" (zeros k')
  end.

Fixpoint dropChars (n : nat) (s : string) : string :=
  match n, s with
  | S k, String _ r => dropChars k r
  | _, _ => s
  end.

(** Steps 10.b-10.d of [Number.prototype.toFixed]: the digits of [n],
    padded on the left to [f + 1] digits, with a point before the last
    [f] of them. *)
Definition fixedDigits (n : Z) (f : nat) : string :=
  let m := decimalDigits n in
  match f with
  | O => m
  | S _ =>
      let k := String.length m in
      let m' := if (k <=? f)%nat then zeros (f + 1 - k) ++ m else m in
      let k' := String.length m' in
      JSRegExp.prefix (k' - f) m' ++ "." ++ dropChars (k' - f) m'
  end.

(** Step 10.a of [toFixed] for [x = m * 2^e]: the integer [n] for which
    [n / 10^f - x] is closest to zero, the larger one of two. *)
Definition roundScaled (m : positive) (e : Z) (f : nat) : Z :=
  let t := Zpos m * 10 ^ Z.of_nat f in
  if 0 <=? e then t * 2 ^ e
  else (2 * t + 2 ^ (- e)) / (2 * 2 ^ (- e)).

(** [10^21 <= m * 2^e] *)
Definition atLeast1e21 (m : positive) (e : Z) : bool :=
  if 0 <=? e then 10 ^ 21 <=? Zpos m * 2 ^ e
  else 10 ^ 21 * 2 ^ (- e) <=? Zpos m.

(** One digit count [k] of [Number::toString]: the [k]-digit integer
    [s] nearest to [x / 10^(n-k)] (an even one on a tie) for which
    [s * 10^(n-k)] reads back as [x], with its [n]. [P / Q] is the
    mathematical value of [x] and [n] its count of integer digits. *)
Definition digitsOfLength (x : number) (P Q n k : Z) : option (Z * Z) :=
  let p := 10 ^ (n - k) in
  let lo := P / (Q * p) in
  let hi := lo + 1 in
  let dlo := P - lo * p * Q in
  let dhi := hi * p * Q - P in
  let readsBack c := sameNumber (decimalValue false c (n - k)) x in
  let inRange c := (c <? 10 ^ k) || (k =? 1) in
  let norm c := if c =? 10 ^ k then (1, n + 1) else (c, n) in
  let '(c1, c2) :=
    if (dlo <? dhi) || (dlo =? dhi) && Z.even lo then (lo, hi) else (hi, lo) in
  if inRange c1 && readsBack c1 then Some (norm c1)
  else if inRange c2 && readsBack c2 then Some (norm c2)
  else None.

(** The [k]-digit integer nearest to [x / 10^(n-k)], an even one on a
    tie, with its [n]: what is printed when the digit count is given. *)
Definition nearestDigits (P Q n k : Z) : Z * Z :=
  let p := 10 ^ (n - k) in
  let lo := P / (Q * p) in
  let dlo := P - lo * p * Q in
  let dhi := (lo + 1) * p * Q - P in
  let c := if (dlo <? dhi) || (dlo =? dhi) && Z.even lo then lo else lo + 1 in
  if c =? 10 ^ k then (1, n + 1) else (c, n).

(** The digit counts [k], [k + 1], ... are tried in turn, [tries] of
    them; the first that reads back as [x] gives the digits. A Number
    reads back from its nearest 17 digits, so counting from 1 the 17th
    try succeeds; the rounding to [k] digits closes the recursion. *)
Fixpoint shortestDigits (x : number) (P Q n : Z) (tries : nat) (k : Z) : Z * Z :=
  match tries with
  | O => nearestDigits P Q n k
  | S t =>
      match digitsOfLength x P Q n k with
      | Some r => r
      | None => shortestDigits x P Q n t (k + 1)
      end
  end.

(** [Number::toString(x)] for a finite [x = m * 2^e >= 10^21], the only
    values [toFixed] hands to it: the shortest digit string that reads
    back as [x], the one nearest to [x] among those of that length, in
    exponent notation. *)
Definition toStringLarge (m : positive) (e : Z) : string :=
  let P := Zpos m * 2 ^ Z.max e 0 in
  let Q := 2 ^ Z.max (- e) 0 in
  let n := Z.of_nat (String.length (decimalDigits (P / Q))) in
  let '(s, n') := shortestDigits (S754_finite false m e) P Q n 17 1 in
  let ds := decimalDigits s in
  let mantissa :=
    match ds with
    | String d EmptyString => ds
    | String d r => String d ("." ++ r)
    | EmptyString => ds
    end in
  mantissa ++ "e+" ++ decimalDigits (n' - 1).

(** [Number.prototype.toFixed(fractionDigits)] applied to [x]. *)
Definition toFixed (x : number) (fractionDigits : Z) : completion string :=
  if (fractionDigits <? 0) || (100 <? fractionDigits) then Throw RangeError
  else
    let f := Z.to_nat fractionDigits in
    Normal
      match x with
      | S754_nan => "NaN"
      | S754_infinity s => if s then "-Infinity" else "Infinity"
      | S754_zero _ => fixedDigits 0 f
      | S754_finite s m e =>
          (if s then "-" else "") ++
          (if atLeast1e21 m e then toStringLarge m e
           else fixedDigits (roundScaled m e f) f)
      end.

End JSNumber.

(* ===================================================================== *)
(** * The Math object *)
(* ===================================================================== *)

Module JSMath.
Import JSNumber.
Local Open Scope Z_scope.

(** [Math.min(x, y)]: NaN as soon as one argument is NaN; [-0] counts as
    smaller than [+0]. *)
Definition min (x y : number) : number :=
  match SFcompare x y with
  | None => S754_nan
  | Some Lt => x
  | Some Gt => y
  | Some Eq =>
      match x, y with
      | S754_zero sx, S754_zero sy => S754_zero (sx || sy)
      | _, _ => x
      end
  end.

(** [Math.round(x)]: the integer nearest to [x], the larger one of two.
    An integer, a zero, an infinity and NaN are returned as they are; a
    value that rounds to zero keeps its sign. *)
Definition round (x : number) : number :=
  match x with
  | S754_finite s m e =>
      if 0 <=? e then x
      else
        let n := (2 * (if s then Zneg m else Zpos m) + 2 ^ (- e)) / (2 * 2 ^ (- e)) in
        if n =? 0 then S754_zero s else ofZ n
  | _ => x
  end.

End JSMath.

(* ===================================================================== *)
(** * The component *)
(* ===================================================================== *)

Import JSString JSRegExp JSNumber.

(** [PantryItem] of [@/lib/recommendations], as the component builds it:
    [quantity] is absent from the objects of the no-match branch. *)
Record PantryItem : Type := mkPantryItem {
  name : string;
  quantity : option number
}.

(** The separator "/,|\n/": a comma or a line feed. *)
Definition isEntrySeparator (c : ascii) : bool :=
  isChar "," c || isChar "010" c.

(** The pattern of [parseManualEntry], token by token:
    [^ ( \d+ (?: \. \d+ )? ) \s* ( \w+ )? \s+ ( .* ) $]. *)
Definition entryPattern : regex :=
  Seq Bol
 (Seq (Group 1 (Seq (Plus isDigit) (Opt (Seq (Class (isChar ".")) (Plus isDigit)))))
 (Seq (Star isWhiteSpace)
 (Seq (Opt (Group 2 (Plus isWordChar)))
 (Seq (Plus isWhiteSpace)
 (Seq (Group 3 (Star isDot))
      Eol))))).

(** The callback of the second [map] of [parseManualEntry]. A group that
    matched is a string; group 1 and group 3 always take part in a match. *)
Definition parseEntry (entry : string) : PantryItem :=
  match exec entryPattern entry with
  | Some m =>
      let qty := default EmptyString (group 1 (caps m)) in
      let unit := group 2 (caps m) in
      let name := default EmptyString (group 3 (caps m)) in
      let prettyName :=
        match unit with
        | Some u => if isEmpty u then name else u ++ " " ++ name
        | None => name
        end in
      {| name := trim prettyName; quantity := Some (parseFloat qty) |}
  | None => {| name := entry; quantity := None |}
  end.

Definition parseManualEntry (input : string) : list PantryItem :=
  map parseEntry
    (List.filter (fun entry => negb (isEmpty entry))
       (map trim (split isEntrySeparator input))).


(** ** Serving scaling ([RecipeCard]) *)

(** [RecipeIngredient] and [Recipe] of [@/data/recipes], with the fields the
    component reads. *)
Record RecipeIngredient : Type := mkRecipeIngredient {
  ingredientName : string;
  ingredientQuantity : number;
  unit : string
}.

Record Recipe : Type := mkRecipe {
  id : string;
  recipeName : string;
  cuisine : string;
  description : string;
  tags : list string;
  baseServings : number;
  ingredients : list RecipeIngredient;
  instructions : list string
}.

Definition formatQuantity (quantity : number) : completion number :=
  if lt quantity num_1 then
    s ← toFixed quantity 2; mret (parseFloat s)
  else if isInteger quantity then
    mret quantity
  else
    s ← toFixed quantity 1; mret (parseFloat s).

(** One line of the "Adjusted ingredients" list: the ingredient, the
    quantity shown and the unit. *)
Record IngredientLine : Type := mkIngredientLine {
  lineName : string;
  lineQuantity : number;
  lineUnit : string
}.

(** The lines [RecipeCard] renders for [servings] servings:
    [multiplier = servings / recipe.baseServings], then per ingredient
    [formatQuantity(ingredient.quantity * multiplier)]. *)
Definition multiplier (recipe : Recipe) (servings : number) : number :=
  div servings (baseServings recipe).

(** The callback of [recipe.ingredients.map]: one rendered line. *)
Definition ingredientLine (recipe : Recipe) (servings : number)
  (ingredient : RecipeIngredient) : completion IngredientLine :=
  q ← formatQuantity (mul (ingredientQuantity ingredient) (multiplier recipe servings));
  mret (mkIngredientLine (ingredientName ingredient) q (unit ingredient)).

Definition adjustedIngredients (recipe : Recipe) (servings : number)
  : completion (list IngredientLine) :=
  mapM (ingredientLine recipe servings) (ingredients recipe).

(** ** Vision post-processing ([detectIngredients]) *)

Definition allowedVisionLabels : gset string :=
  list_to_set
    [ "apple"; "banana"; "orange"; "carrot"; "broccoli"; "cucumber"; "tomato";
      "potato"; "lemon"; "lime"; "pepper"; "bell pepper"; "cabbage"; "lettuce";
      "onion"; "garlic"; "zucchini"; "eggplant"; "avocado"; "mushroom"; "egg";
      "bread"; "sandwich"; "pizza"; "cake"; "donut"; "bowl"; "apple"; "banana";
      "grapes"; "kiwi"; "strawberry"; "pineapple"; "cheese"; "yogurt" ].

(** [allowedVisionLabels.has(label)] *)
Definition has (labels : gset string) (label : string) : bool :=
  bool_decide (label ∈ labels).

(** A prediction of the detection model: its [class] and [score]. *)
Record Prediction : Type := mkPrediction {
  class : string;
  score : number
}.

(** The objects of the intermediate array [ingredients]. *)
Record Ingredient : Type := mkIngredient {
  ingScore : number;
  className : string
}.

(** What [detectIngredients] does with the predictions of one image: the
    list handed to [handleAddPantryItems] ([[]] when it is not called) and
    the value handed to [setVisionConfidence]. *)
Record DetectionResult : Type := mkDetectionResult {
  items : list PantryItem;
  aggregateConfidence : number
}.

(** The callback of [.map] over the confident predictions. *)
Definition toIngredient (prediction : Prediction) : Ingredient :=
  {| ingScore := score prediction; className := toLowerCase (class prediction) |}.

Definition survivingIngredients (predictions : list Prediction) : list Ingredient :=
  List.filter (fun i => has allowedVisionLabels (className i))
    (map toIngredient
       (List.filter (fun prediction => ge (score prediction) num_0_4) predictions)).

(** The callback that builds the pantry entry of one ingredient:
    [{ name: className, quantity: Number.parseFloat((score * 2).toFixed(2)) }]. *)
Definition pantryEntry (i : Ingredient) : completion PantryItem :=
  s ← toFixed (mul (ingScore i) num_2) 2;
  mret (mkPantryItem (className i) (Some (parseFloat s))).

Definition processDetections (predictions : list Prediction) : completion DetectionResult :=
  let ingredients := survivingIngredients predictions in
  match ingredients with
  | [] => mret (mkDetectionResult [] num_0)
  | _ :: _ =>
      pantry ← mapM pantryEntry ingredients;
      let averageConfidence :=
        div (fold_left (fun total ingredient => add total (ingScore ingredient)) ingredients num_0)
            (ofZ (Z.of_nat (List.length ingredients))) in
      mret (mkDetectionResult pantry averageConfidence)
  end.

(** ** Display helpers *)

Section TitleCase.

(** [String.prototype.toUpperCase], which [toTitleCase] applies to the
    first code unit of a word only. Upper-casing is not closed on the
    code units below 256 (U+00DF gives two units, U+00B5 and U+00FF leave
    the range), so it is a parameter of the model. *)
Variable toUpperCase : string -> string.

(** The callback of [.map]: [word.charAt(0).toUpperCase() + word.slice(1)]. *)
Definition titleWord (word : string) : string :=
  toUpperCase (charAt0 word) ++ slice1 word.

Definition toTitleCase (value : string) : string :=
  join " " (map titleWord (split (isChar " ") value)).

End TitleCase.

Definition num_100 : number := Eval vm_compute in lit "100".

Definition formatStatus (status : number) : number :=
  JSMath.round (JSMath.min (mul status num_100) num_100).

(** ** Pantry state ([RecipeRecommender]) *)

(** The updater [removePantryItem(name)] hands to [setPantryItems]:
    [items.filter((item) => item.name !== name)]. *)
Definition removePantryItem (target : string) (pantry : list PantryItem)
  : list PantryItem :=
  List.filter (fun item => negb (String.eqb (name item) target)) pantry.

(** The updater of [updatePantryQuantity(name, quantity)]:
    [items.map((item) => (item.name === name ? { ...item, quantity } : item))]. *)
Definition updatePantryQuantity (target : string) (newQuantity : option number)
  (pantry : list PantryItem) : list PantryItem :=
  map (fun item =>
         if String.eqb (name item) target
         then {| name := name item; quantity := newQuantity |}
         else item)
      pantry.

(** The state of [RecipeRecommender]: one field per [useState]. *)
Record State : Type := mkState {
  pantryItems : list PantryItem;
  manualEntry : string;
  imagePreview : option string;
  visionLoading : bool;
  visionStatus : option string;
  visionConfidence : number
}.

Section Pantry.

(** [mergePantryItems] of [@/lib/recommendations]: not part of the
    component, so the handlers are modelled for any such function. *)
Variable mergePantryItems : list PantryItem -> list PantryItem.

Definition handleAddPantryItems (newItems : list PantryItem) (st : State) : State :=
  match newItems with
  | [] => st
  | _ :: _ =>
      mkState (mergePantryItems (pantryItems st ++ newItems)) (manualEntry st)
        (imagePreview st) (visionLoading st) (visionStatus st) (visionConfidence st)
  end.

Definition handleManualSubmit (st : State) : State :=
  let parsed := parseManualEntry (manualEntry st) in
  let st' := handleAddPantryItems parsed st in
  mkState (pantryItems st') EmptyString
    (imagePreview st') (visionLoading st') (visionStatus st') (visionConfidence st').

End Pantry.

(** [clearPantry]: every field but [visionLoading] goes back to its
    initial value. *)
Definition clearPantry (st : State) : State :=
  mkState [] EmptyString None (visionLoading st) None num_0.

(* ===================================================================== *)
(** * The vocabulary of the specification *)
(* ===================================================================== *)




(** A bare number: digits, optionally followed by a point and digits. *)
Definition isBareNumber (s : string) : bool :=
  let '(int, r) := span isDigit s in
  negb (isEmpty int) &&
  match r with
  | EmptyString => true
  | String c f => isChar "." c && negb (isEmpty f) && allChars isDigit f
  end.

(** The pieces of the input that [parseManualEntry] turns into items. *)
Definition segments (input : string) : list string :=
  split isEntrySeparator input.




(** A detection survives when its confidence reaches the threshold and its
    lower-cased label is on the allow-list. *)
Definition survives (p : Prediction) : bool :=
  ge (score p) num_0_4 && has allowedVisionLabels (toLowerCase (class p)).

Definition survivingDetections (predictions : list Prediction) : list Prediction :=
  List.filter survives predictions.

(** The arithmetic mean of a list of Numbers, summed in list order. *)
Definition sumOf (l : list number) : number := fold_left add l num_0.

Definition meanOf (l : list number) : number :=
  div (sumOf l) (ofZ (Z.of_nat (List.length l))).

(** The scaler rejects its arguments when it completes abruptly. *)
Definition rejects (recipe : Recipe) (servings : number) : Prop :=
  exists e, adjustedIngredients recipe servings = Throw e.

(** Every line of the scaled list shows a quantity above zero. *)
Definition displaysPositive (recipe : Recipe) (servings : number) : Prop :=
  forall lines, adjustedIngredients recipe servings = Normal lines ->
    Forall (fun line => lt num_0 (lineQuantity line) = true) lines.

(** A Number above zero of sign [s] read as a magnitude: finite and not
    a zero, or an infinity. *)
Definition isPositive (s : bool) (x : number) : Prop :=
  (exists m e, x = S754_finite s m e) \/ x = S754_infinity s.


(** The smallest quantity that two decimals do not round to zero. *)
Definition num_0_005 : number := Eval vm_compute in lit "0.005".

(** A recipe with a very small quantity, and one with ordinary ones. *)
Definition saffronRice : Recipe :=
  {| id := "saffron-rice"; recipeName := "Saffron rice"; cuisine := "Persian";
     description := "Rice with a pinch of saffron"; tags := ["rice"];
     baseServings := num_2;
     ingredients := [ mkRecipeIngredient "saffron" (lit "0.004") "g" ];
     instructions := ["Steep the saffron"; "Cook the rice"] |}.

Definition pancakes : Recipe :=
  {| id := "pancakes"; recipeName := "Pancakes"; cuisine := "American";
     description := "Fluffy pancakes"; tags := ["breakfast"];
     baseServings := lit "4";
     ingredients := [ mkRecipeIngredient "flour" num_2 "cups";
                      mkRecipeIngredient "salt" (lit "0.25") "tsp" ];
     instructions := ["Mix"; "Fry"] |}.

(** The text begins with a decimal digit. *)
Definition startsWithDigit (s : string) : bool :=
  match s with
  | String c _ => isDigit c
  | EmptyString => false
  end.

(** The code units of [s] that are not whitespace, in order. *)
Fixpoint withoutWhiteSpace (s : string) : string :=
  match s with
  | EmptyString => EmptyString
  | String c r =>
      if isWhiteSpace c then withoutWhiteSpace r else String c (withoutWhiteSpace r)
  end.

(** A Number that is [+0], positive or [+Infinity]. *)
Definition nonNegative (x : number) : Prop :=
  x = S754_zero false \/ isPositive false x.

(** The Number nearest to [n / 100] lies between [lo] and [hi]. *)
Definition hundredthsInRange (lo hi : number) (n : Z) : bool :=
  ge (decimalValue false n (-2)) lo && ge hi (decimalValue false n (-2)).

(** A whole number between 0 and 100. *)
Definition percentOK (r : number) : bool :=
  isInteger r && ge r num_0 && ge num_100 r.

(* ===================================================================== *)
(** * Strings: trimming and character classes *)
(* ===================================================================== *)

Section StringFacts.

Lemma isEmpty_true (s : string) : isEmpty s = true -> s = EmptyString.
Proof. destruct s; [reflexivity | discriminate]. Qed.


Lemma trimStart_head (s : string) (c : ascii) (r : string) :
  trimStart s = String c r -> isWhiteSpace c = false.
Proof.
  induction s as [|d t IH]; simpl; [discriminate|].
  destruct (isWhiteSpace d) eqn:E; [exact IH|].
  intros H. injection H as -> _. exact E.
Qed.





Lemma existsChar_app (p : ascii -> bool) (a b : string) :
  existsChar p (a ++ b) = existsChar p a || existsChar p b.
Proof.
  induction a as [|c r IH]; simpl; [reflexivity|].
  rewrite IH. apply orb_assoc.
Qed.

Lemma allChars_app (p : ascii -> bool) (a b : string) :
  allChars p (a ++ b) = allChars p a && allChars p b.
Proof.
  induction a as [|c r IH]; simpl; [reflexivity|].
  rewrite IH. apply andb_assoc.
Qed.

Lemma allChars_not_exists (p q : ascii -> bool) (s : string) :
  (forall c, p c = true -> q c = false) ->
  allChars p s = true -> existsChar q s = false.
Proof.
  intros Hpq. induction s as [|c r IH]; simpl; [reflexivity|].
  intros H. apply andb_prop in H as [Hc Hr].
  rewrite (Hpq c Hc), (IH Hr). reflexivity.
Qed.

Lemma span_spec (p : ascii -> bool) (s a b : string) :
  span p s = (a, b) -> s = a ++ b /\ allChars p a = true.
Proof.
  revert a b. induction s as [|c r IH]; simpl; intros a b H.
  - injection H as <- <-. split; reflexivity.
  - destruct (p c) eqn:Hc.
    + destruct (span p r) as [a' b'] eqn:E. injection H as <- <-.
      destruct (IH a' b' eq_refl) as [-> Ha]. simpl. rewrite Hc, Ha.
      split; reflexivity.
    + injection H as <- <-. split; reflexivity.
Qed.



Lemma digit_not_space (c : ascii) : isDigit c = true -> isWhiteSpace c = false.
Proof.
  unfold isDigit, isWhiteSpace.
  destruct (code c) as [|n]; [discriminate|].
  intros H. apply andb_prop in H as [H1 H2].
  apply N.leb_le in H1, H2.
  repeat match goal with
         | |- context [(?a <=? ?b)%N] => destruct (N.leb_spec a b)
         | |- context [(?a =? ?b)%N] => destruct (N.eqb_spec a b)
         end; simpl; try reflexivity; lia.
Qed.

Lemma word_not_space (c : ascii) : isWordChar c = true -> isWhiteSpace c = false.
Proof.
  unfold isWordChar, isWhiteSpace.
  destruct (code c) as [|n]; [discriminate|].
  repeat match goal with
         | |- context [(?a <=? ?b)%N] => destruct (N.leb_spec a b)
         | |- context [(?a =? ?b)%N] => destruct (N.eqb_spec a b)
         end; simpl; try reflexivity; try discriminate; lia.
Qed.

End StringFacts.

(* ===================================================================== *)
(** * The matcher: what a continuation state says about the input *)
(* ===================================================================== *)

Section RegExpFacts.

Lemma append_cons (x : ascii) (a b : string) : String x a ++ b = String x (a ++ b).
Proof. reflexivity. Qed.

Lemma append_assoc (a b c : string) : (a ++ b) ++ c = a ++ (b ++ c).
Proof.
  induction a as [|x r IH]; [reflexivity|].
  rewrite !append_cons. f_equal. exact IH.
Qed.

Lemma append_empty_r (a : string) : a ++ EmptyString = a.
Proof.
  induction a as [|x r IH]; [reflexivity|].
  rewrite append_cons. f_equal. exact IH.
Qed.

Lemma length_append (a b : string) :
  String.length (a ++ b) = (String.length a + String.length b)%nat.
Proof.
  induction a as [|x r IH]; [reflexivity|].
  rewrite append_cons. simpl. f_equal. exact IH.
Qed.

Lemma prefix_append (m t : string) : prefix (String.length m) (m ++ t) = m.
Proof.
  induction m as [|x r IH]; [now destruct t|].
  rewrite append_cons. simpl. f_equal. exact IH.
Qed.

(** A greedy run consumes a block of the class and nothing else. *)
Lemma many_spec (p : ascii -> bool) (s : string) :
  forall i j t, In (j, t) (many p i s) ->
    exists m, s = m ++ t /\ j = (i + String.length m)%nat /\ allChars p m = true.
Proof.
  assert (Hnil : forall i (u : string),
             exists m, u = m ++ u /\ i = (i + String.length m)%nat /\ allChars p m = true).
  { intros i u. exists EmptyString. simpl. repeat split. lia. }
  induction s as [|c r IH]; simpl; intros i j t H.
  - destruct H as [H|[]]. injection H as <- <-. apply Hnil.
  - destruct (p c) eqn:Hc.
    + apply in_app_iff in H as [H|[H|[]]].
      * destruct (IH _ _ _ H) as (m & -> & -> & Hm).
        exists (String c m). simpl. rewrite Hc, Hm. repeat split. lia.
      * injection H as <- <-. apply Hnil.
    + destruct H as [H|[]]. injection H as <- <-. apply Hnil.
Qed.

(** The facts a continuation state carries: the text consumed, where it
    ends, and the captures. *)
Definition consumed (st st' : mstate) (m : string) : Prop :=
  rest st = m ++ rest st' /\ pos st' = (pos st + String.length m)%nat.

Lemma run_Star (p : ascii -> bool) (st st' : mstate) :
  In st' (run (Star p) st) ->
  exists m, consumed st st' m /\ allChars p m = true /\ caps st' = caps st.
Proof.
  simpl. intros H. apply in_map_iff in H as ([j t] & <- & H).
  destruct (many_spec _ _ _ _ _ H) as (m & E & -> & Hm).
  exists m. unfold consumed. simpl. auto.
Qed.

Lemma run_Plus (p : ascii -> bool) (st st' : mstate) :
  In st' (run (Plus p) st) ->
  exists c m, consumed st st' (String c m) /\ p c = true /\
              allChars p m = true /\ caps st' = caps st.
Proof.
  simpl. destruct (rest st) as [|c t] eqn:E; [intros []|].
  destruct (p c) eqn:Hc; [|intros []].
  intros H. apply in_map_iff in H as ([j u] & <- & H).
  destruct (many_spec _ _ _ _ _ H) as (m & -> & -> & Hm).
  exists c, m. unfold consumed. simpl. rewrite E. repeat split; auto; lia.
Qed.

Lemma run_Class (p : ascii -> bool) (st st' : mstate) :
  In st' (run (Class p) st) ->
  exists c, consumed st st' (String c EmptyString) /\ p c = true /\ caps st' = caps st.
Proof.
  simpl. destruct (rest st) as [|c t] eqn:E; [intros []|].
  destruct (p c) eqn:Hc; [|intros []].
  intros [<-|[]]. exists c. unfold consumed. simpl. rewrite E. repeat split; auto; lia.
Qed.

Lemma consumed_trans (a b c : mstate) (m n : string) :
  consumed a b m -> consumed b c n -> consumed a c (m ++ n).
Proof.
  unfold consumed. intros [E1 P1] [E2 P2]. rewrite E1, E2, P2, P1.
  rewrite append_assoc, length_append. split; [reflexivity | lia].
Qed.

Lemma consumed_refl (a : mstate) : consumed a a EmptyString.
Proof. unfold consumed. simpl. split; [reflexivity | lia]. Qed.

(** Every continuation state lies further along the same input. *)
Lemma run_consumed (r : regex) :
  forall st st', In st' (run r st) -> exists m, consumed st st' m.
Proof.
  induction r as [p|p|p|r1 IH1 r2 IH2|r IH|i r IH| |]; intros st st' H.
  - destruct (run_Class _ _ _ H) as (c & Hc & _). eauto.
  - destruct (run_Star _ _ _ H) as (m & Hm & _). eauto.
  - destruct (run_Plus _ _ _ H) as (c & m & Hm & _). eauto.
  - simpl in H. apply in_flat_map in H as (mid & H1 & H2).
    destruct (IH1 _ _ H1) as (m & Hm). destruct (IH2 _ _ H2) as (n & Hn).
    exists (m ++ n). eapply consumed_trans; eauto.
  - simpl in H. apply in_app_iff in H as [H|[<-|[]]].
    + eauto.
    + exists EmptyString. apply consumed_refl.
  - simpl in H. apply in_map_iff in H as (mid & <- & H).
    destruct (IH _ _ H) as (m & Hm). exists m. exact Hm.
  - simpl in H. destruct (Nat.eqb (pos st) 0); [|destruct H].
    destruct H as [<-|[]]. exists EmptyString. apply consumed_refl.
  - simpl in H. destruct (isEmpty (rest st)); [|destruct H].
    destruct H as [<-|[]]. exists EmptyString. apply consumed_refl.
Qed.

(** A capturing group records exactly the text its body consumed. *)
Lemma run_Group (i : nat) (r : regex) (st st' : mstate) :
  In st' (run (Group i r) st) ->
  exists mid m, In mid (run r st) /\ consumed st st' m /\
                rest st' = rest mid /\ caps st' = (i, m) :: caps mid.
Proof.
  simpl. intros H. apply in_map_iff in H as (mid & <- & H).
  destruct (run_consumed _ _ _ H) as (m & E & P).
  exists mid, m. unfold consumed. simpl. repeat split; auto.
  rewrite P, E. replace (pos st + String.length m - pos st)%nat with (String.length m) by lia.
  now rewrite prefix_append.
Qed.

Lemma run_Seq (r1 r2 : regex) (st st' : mstate) :
  In st' (run (Seq r1 r2) st) ->
  exists mid, In mid (run r1 st) /\ In st' (run r2 mid).
Proof. simpl. intros H. now apply in_flat_map in H. Qed.

Lemma run_Opt (r : regex) (st st' : mstate) :
  In st' (run (Opt r) st) -> In st' (run r st) \/ st' = st.
Proof.
  simpl. intros H. apply in_app_iff in H as [H|[H|[]]]; [left | right]; auto.
Qed.

Lemma run_Bol (st st' : mstate) :
  In st' (run Bol st) -> st' = st /\ pos st = 0%nat.
Proof.
  simpl. destruct (Nat.eqb_spec (pos st) 0); [|intros []].
  intros [<-|[]]. auto.
Qed.

Lemma run_Eol (st st' : mstate) :
  In st' (run Eol st) -> st' = st /\ rest st = EmptyString.
Proof.
  simpl. destruct (rest st); simpl; [|intros []].
  intros [<-|[]]. auto.
Qed.

(** A pattern anchored with [^] matches at index 0 or nowhere. *)
Lemma execFrom_anchored (r : regex) (s : string) :
  forall i, execFrom (Seq Bol r) (S i) s = None.
Proof. induction s as [|c t IH]; intros i; simpl; [reflexivity | apply IH]. Qed.

Lemma execFrom_unfold (r : regex) (i : nat) (s : string) :
  execFrom r i s =
  match run r (MState i s []) with
  | st :: _ => Some st
  | [] => match s with
          | String _ t => execFrom r (S i) t
          | EmptyString => None
          end
  end.
Proof. destruct s; reflexivity. Qed.

Lemma exec_anchored (r : regex) (s : string) (m : mstate) :
  exec (Seq Bol r) s = Some m -> In m (run (Seq Bol r) (MState 0 s [])).
Proof.
  unfold exec. rewrite execFrom_unfold.
  destruct (run (Seq Bol r) (MState 0 s [])) as [|x l].
  - destruct s; [discriminate|]. rewrite execFrom_anchored. discriminate.
  - intros H. injection H as <-. left. reflexivity.
Qed.

Lemma exec_none (r : regex) (s : string) :
  run (Seq Bol r) (MState 0 s []) = [] -> exec (Seq Bol r) s = None.
Proof.
  unfold exec. intros H. rewrite execFrom_unfold, H.
  destruct s; [reflexivity|]. apply execFrom_anchored.
Qed.

End RegExpFacts.

(* ===================================================================== *)
(** * Manual entry *)
(* ===================================================================== *)

Section ManualEntry.

Fixpoint noGroup (r : regex) : bool :=
  match r with
  | Seq r1 r2 => noGroup r1 && noGroup r2
  | Opt r1 => noGroup r1
  | Group _ _ => false
  | _ => true
  end.

Lemma run_noGroup (r : regex) :
  forall st st', noGroup r = true -> In st' (run r st) -> caps st' = caps st.
Proof.
  induction r as [p|p|p|r1 IH1 r2 IH2|r IH|i r IH| |]; intros st st' Hn H.
  - destruct (run_Class _ _ _ H) as (c & _ & _ & E). exact E.
  - destruct (run_Star _ _ _ H) as (m & _ & _ & E). exact E.
  - destruct (run_Plus _ _ _ H) as (c & m & _ & _ & _ & E). exact E.
  - simpl in Hn. apply andb_prop in Hn as [H1 H2].
    apply run_Seq in H as (mid & Ha & Hb).
    rewrite (IH2 _ _ H2 Hb). exact (IH1 _ _ H1 Ha).
  - apply run_Opt in H as [H| ->]; [exact (IH _ _ Hn H) | reflexivity].
  - discriminate.
  - apply run_Bol in H as [-> _]. reflexivity.
  - apply run_Eol in H as [-> _]. reflexivity.
Qed.

Lemma append_inj_length (m n t u : string) :
  m ++ t = n ++ u -> String.length m = String.length n -> m = n /\ t = u.
Proof.
  revert n. induction m as [|x m IH]; intros [|y n]; simpl; try discriminate.
  - auto.
  - rewrite !append_cons. intros H L. injection H as -> H. injection L as L.
    destruct (IH _ H L) as [-> ->]. auto.
Qed.

Lemma consumed_unique (a b : mstate) (m n : string) :
  consumed a b m -> consumed a b n -> m = n.
Proof.
  intros [E1 P1] [E2 P2]. rewrite E1 in E2.
  apply (append_inj_length _ _ _ _ E2). lia.
Qed.

(** What a match of the entry pattern looks like: the entry ends in a
    block of whitespace followed by the text of group 3, group 1 took
    part, and group 2, when it took part, starts with a word character. *)
Lemma entry_match (e : string) (m : mstate) :
  exec entryPattern e = Some m ->
  exists qty a c w nm,
    e = a ++ String c w ++ nm /\
    isWhiteSpace c = true /\ allChars isWhiteSpace w = true /\
    group 1 (caps m) = Some qty /\
    group 3 (caps m) = Some nm /\
    (group 2 (caps m) = None \/
     exists d u, group 2 (caps m) = Some (String d u) /\ isWordChar d = true).
Proof.
  intros H. apply exec_anchored in H. fold entryPattern in H.
  unfold entryPattern in H.
  apply run_Seq in H as (s1 & H1 & H). apply run_Bol in H1 as [-> _].
  apply run_Seq in H as (s2 & H2 & H).
  apply run_Seq in H as (s3 & H3 & H).
  apply run_Seq in H as (s4 & H4 & H).
  apply run_Seq in H as (s5 & H5 & H).
  apply run_Seq in H as (s6 & H6 & H).
  apply run_Eol in H as [-> Hend].
  (* group 1 *)
  apply run_Group in H2 as (m1 & qty & Hm1 & C2 & R2 & K2).
  assert (K1 : caps m1 = []) by (eapply run_noGroup in Hm1; [exact Hm1 | reflexivity]).
  rewrite K1 in K2.
  (* whitespace after the number *)
  apply run_Star in H3 as (w1 & C3 & _ & K3).
  (* the separating whitespace *)
  apply run_Plus in H5 as (c & w & C5 & Hc & Hw & K5).
  (* group 3 *)
  apply run_Group in H6 as (m3 & nm & Hm3 & C6 & R6 & K6).
  apply run_Star in Hm3 as (nm' & _ & _ & K3').
  assert (Hnm : rest s5 = nm).
  { destruct C6 as [E _]. rewrite E, Hend. apply append_empty_r. }
  (* group 2 *)
  apply run_Opt in H4 as [H4| ->].
  - apply run_Group in H4 as (m2 & u & Hm2 & C4 & R4 & K4).
    apply run_Plus in Hm2 as (d & u' & C4' & Hd & _ & K4').
    assert (Hu : u = String d u').
    { destruct C4 as [E P], C4' as [E' P']. rewrite <- R4 in E'.
      rewrite E in E'.
      assert (L : String.length u = String.length (String d u')).
      { assert (String.length (u ++ rest s4) = String.length (String d u' ++ rest s4))
          by now rewrite E'.
        rewrite !length_append in H. lia. }
      apply (append_inj_length _ _ _ _ E' L). }
    subst u.
    pose proof (consumed_trans _ _ _ _ _ (consumed_trans _ _ _ _ _ C2 C3) C4) as [E _].
    exists qty, ((qty ++ w1) ++ String d u'), c, w, nm. simpl in E.
    destruct C5 as [E5 _]. rewrite E5, Hnm in E.
    split; [exact E|]. repeat split; auto.
    + rewrite K6, K3', K5, K4, K4', K3, K2. reflexivity.
    + rewrite K6. reflexivity.
    + right. exists d, u'. rewrite K6, K3', K5, K4. auto.
  - pose proof (consumed_trans _ _ _ _ _ C2 C3) as [E _].
    exists qty, (qty ++ w1), c, w, nm. simpl in E.
    destruct C5 as [E5 _]. rewrite E5, Hnm in E.
    split; [exact E|]. repeat split; auto.
    + rewrite K6, K3', K5, K3, K2. reflexivity.
    + rewrite K6. reflexivity.
    + left. rewrite K6, K3', K5, K3, K2. reflexivity.
Qed.



End ManualEntry.

(* ===================================================================== *)
(** * Claims about manual entry *)
(* ===================================================================== *)

(** C1. The parser example of the specification: the text
    "2 cups spinach, 1 lime, 1 avocado" gives three items, in order
    "cups spinach" with quantity 2, "lime" with quantity 1 and "avocado"
    with quantity 1. The quantities are written out as binary64 values,
    2 = 2^52 * 2^-51 and 1 = 2^52 * 2^-52, which are the machine's 2 and 1. *)
Theorem parse_example :
  parseManualEntry "2 cups spinach, 1 lime, 1 avocado" =
  [ {| name := "cups spinach";
       quantity := Some (S754_finite false 4503599627370496 (-51)) |};
    {| name := "lime";
       quantity := Some (S754_finite false 4503599627370496 (-52)) |};
    {| name := "avocado";
       quantity := Some (S754_finite false 4503599627370496 (-52)) |} ] /\
  S754_finite false 4503599627370496 (-51) = Prim2SF 2%float /\
  S754_finite false 4503599627370496 (-52) = Prim2SF 1%float.
Proof. vm_compute. auto. Qed.




(** C10. A segment that is a bare number, such as "2", gives an item whose
    name is the numeral itself and whose quantity is unset: without
    whitespace after the number the pattern does not match. *)
Theorem parse_bare_number (input seg : string) :
  In seg (segments input) ->
  isBareNumber (trim seg) = true ->
  In {| name := trim seg; quantity := None |} (parseManualEntry input).
Proof.
  intros Hseg Hbare. unfold parseManualEntry.
  assert (Hne : trim seg <> EmptyString).
  { intros E. rewrite E in Hbare. discriminate. }
  assert (Hws : existsChar isWhiteSpace (trim seg) = false).
  { unfold isBareNumber in Hbare.
    destruct (span isDigit (trim seg)) as [int r] eqn:Es.
    apply span_spec in Es as [-> Hint].
    apply andb_prop in Hbare as [_ Hr].
    rewrite existsChar_app.
    rewrite (allChars_not_exists _ _ _ digit_not_space Hint). simpl.
    destruct r as [|c f]; [reflexivity|].
    apply andb_prop in Hr as [Hr Hf]. apply andb_prop in Hr as [Hc _].
    simpl. rewrite (allChars_not_exists _ _ _ digit_not_space Hf).
    unfold isChar in Hc. apply Ascii.eqb_eq in Hc. subst c. reflexivity. }
  assert (Hexec : exec entryPattern (trim seg) = None).
  { apply exec_none. fold entryPattern.
    destruct (run entryPattern _) as [|m l] eqn:E; [reflexivity|].
    assert (Hm : exec entryPattern (trim seg) = Some m).
    { unfold exec. rewrite execFrom_unfold, E. reflexivity. }
    destruct (entry_match _ _ Hm) as (qty & a & c & w & nm & He & Hc & _).
    rewrite He, existsChar_app in Hws. simpl in Hws.
    rewrite Hc in Hws. simpl in Hws.
    rewrite orb_true_r in Hws. discriminate. }
  apply in_map_iff. exists (trim seg). split.
  - unfold parseEntry. rewrite Hexec. reflexivity.
  - apply filter_In. split.
    + apply in_map. exact Hseg.
    + destruct (trim seg); [congruence | reflexivity].
Qed.

Lemma parse_bare_number_witness :
  In {| name := "2"; quantity := None |} (parseManualEntry "7 eggs, 2").
Proof.
  apply (parse_bare_number "7 eggs, 2" " 2").
  - vm_compute. right. left. reflexivity.
  - vm_compute. reflexivity.
Defined.

(* ===================================================================== *)
(** * Numbers: rounding, exact operations, decimal text *)
(* ===================================================================== *)

Section NumberFacts.

Local Open Scope Z_scope.

Lemma fexp_eq z : fexp prec emax z = Z.max (z - 53) (-1074).
Proof. reflexivity. Qed.

Lemma digits2_bounds (m : positive) :
  2 ^ (Zpos (digits2_pos m) - 1) <= Zpos m < 2 ^ Zpos (digits2_pos m).
Proof.
  induction m as [m IH|m IH|]; simpl digits2_pos.
  - rewrite Pos2Z.inj_succ. replace (Z.succ (Zpos (digits2_pos m)) - 1) with (Zpos (digits2_pos m)) by lia.
    rewrite Z.pow_succ_r by lia.
    replace (Zpos (digits2_pos m)) with (Z.succ (Zpos (digits2_pos m) - 1)) at 1 by lia.
    rewrite Z.pow_succ_r by lia. lia.
  - rewrite Pos2Z.inj_succ. replace (Z.succ (Zpos (digits2_pos m)) - 1) with (Zpos (digits2_pos m)) by lia.
    rewrite Z.pow_succ_r by lia.
    replace (Zpos (digits2_pos m)) with (Z.succ (Zpos (digits2_pos m) - 1)) at 1 by lia.
    rewrite Z.pow_succ_r by lia. lia.
  - simpl. lia.
Qed.

Lemma digits2_unique (m : positive) (d : Z) :
  2 ^ (d - 1) <= Zpos m < 2 ^ d -> Zpos (digits2_pos m) = d.
Proof.
  intros [Hlo Hhi]. pose proof (digits2_bounds m) as [Blo Bhi].
  set (k := Zpos (digits2_pos m)) in *.
  assert (0 < k) by (unfold k; lia).
  destruct (Z.lt_trichotomy k d) as [Hlt|[Heq|Hgt]]; [|exact Heq|].
  - exfalso. assert (2 ^ k <= 2 ^ (d - 1)) by (apply Z.pow_le_mono_r; lia). lia.
  - exfalso.
    assert (0 <= d \/ d < 0) as [Hd|Hd] by lia.
    + assert (2 ^ d <= 2 ^ (k - 1)) by (apply Z.pow_le_mono_r; lia). lia.
    + rewrite (Z.pow_neg_r 2 d Hd) in Hhi. lia.
Qed.

Lemma bounded_facts (m : positive) (e : Z) :
  bounded prec emax m e = true ->
  -1074 <= e <= 971 /\ Zpos (digits2_pos m) <= 53 /\
  (-1074 < e -> Zpos (digits2_pos m) = 53).
Proof.
  unfold bounded, canonical_mantissa. rewrite fexp_eq.
  intros H. apply andb_prop in H as [H1 H2].
  apply Z.eqb_eq in H1. apply Z.leb_le in H2.
  change (emax - prec) with 971 in H2. lia.
Qed.

Lemma SFcompare_antisym (x y : spec_float) :
  SFcompare y x = option_map CompOpp (SFcompare x y).
Proof.
  destruct x as [[]|[]| |[] m e], y as [[]|[]| |[] n f]; simpl; try reflexivity.
  - rewrite (Z.compare_antisym e f).
    destruct (e ?= f); simpl; try reflexivity.
    rewrite CompOpp_involutive. f_equal.
    rewrite Pos.compare_cont_antisym. reflexivity.
  - rewrite (Z.compare_antisym e f).
    destruct (e ?= f); simpl; try reflexivity.
    f_equal. rewrite Pos.compare_cont_antisym. reflexivity.
Qed.

Lemma ge_not_lt (x y : number) : ge x y = true -> lt x y = false.
Proof.
  unfold ge, lt, SFleb, SFltb. rewrite (SFcompare_antisym y x).
  destruct (SFcompare y x) as [[]|]; simpl; congruence.
Qed.

(** ** Shifting the mantissa right *)

Lemma iter_pos_nat {A} (f : A -> A) (p : positive) :
  forall x, SpecFloat.iter_pos f p x = Nat.iter (Pos.to_nat p) f x.
Proof.
  induction p as [p IH|p IH|]; intros x; simpl SpecFloat.iter_pos.
  - rewrite !IH, Pos2Nat.inj_xI.
    replace (S (2 * Pos.to_nat p)) with (Pos.to_nat p + (Pos.to_nat p + 1))%nat by lia.
    rewrite !Nat.iter_add. reflexivity.
  - rewrite !IH, Pos2Nat.inj_xO.
    replace (2 * Pos.to_nat p)%nat with (Pos.to_nat p + Pos.to_nat p)%nat by lia.
    rewrite Nat.iter_add. reflexivity.
  - reflexivity.
Qed.

Lemma shr_1_m (mrs : shr_record) :
  0 <= shr_m mrs -> shr_m (shr_1 mrs) = shr_m mrs / 2.
Proof.
  destruct mrs as [m r s]. simpl. intros Hm.
  destruct m as [|[p|p|]|p]; simpl; try reflexivity; try lia.
  - rewrite Pos2Z.inj_xI. apply Z.div_unique_pos with (r := 1); lia.
  - rewrite Pos2Z.inj_xO. apply Z.div_unique_pos with (r := 0); lia.
Qed.

Lemma shr_iter_m (n : nat) (mrs : shr_record) :
  0 <= shr_m mrs ->
  shr_m (Nat.iter n shr_1 mrs) = shr_m mrs / 2 ^ Z.of_nat n.
Proof.
  intros Hm. induction n as [|n IH].
  - simpl. now rewrite Z.div_1_r.
  - rewrite Nat.iter_succ, shr_1_m, IH.
    + rewrite Nat2Z.inj_succ, Z.pow_succ_r by lia.
      rewrite Z.div_div by lia. f_equal. lia.
    + rewrite IH. apply Z.div_pos; lia.
Qed.

Lemma shr_m_spec (mrs : shr_record) (e n : Z) :
  0 <= shr_m mrs ->
  shr_m (fst (shr mrs e n)) = shr_m mrs / 2 ^ Z.max n 0 /\
  snd (shr mrs e n) = e + Z.max n 0.
Proof.
  intros Hm. destruct n as [|p|p]; simpl.
  - rewrite Z.div_1_r. split; [reflexivity | lia].
  - rewrite iter_pos_nat, shr_iter_m by exact Hm.
    rewrite positive_nat_Z. split; reflexivity.
  - rewrite Z.div_1_r. split; [reflexivity | lia].
Qed.

Lemma shr_record_of_loc_m (m : Z) (l : location) : shr_m (shr_record_of_loc m l) = m.
Proof. destruct l as [|[]]; reflexivity. Qed.

Lemma Zdigits2_bounds (m : Z) :
  0 < m -> 2 ^ (Zdigits2 m - 1) <= m < 2 ^ Zdigits2 m.
Proof. destruct m as [|p|p]; try lia. intros _. apply digits2_bounds. Qed.

(** Rounding a mantissa of at least 1 whose exponent is no smaller than
    that of the subnormals leaves a mantissa of at least 1. *)
Lemma shr_fexp_pos (m e : Z) (l : location) :
  1 <= m -> -1074 <= e ->
  1 <= shr_m (fst (shr_fexp prec emax m e l)) /\
  -1074 <= snd (shr_fexp prec emax m e l).
Proof.
  intros Hm He. unfold shr_fexp. rewrite fexp_eq.
  set (n := Z.max (Zdigits2 m + e - 53) (-1074) - e).
  destruct (shr_m_spec (shr_record_of_loc m l) e n) as [E1 E2].
  { rewrite shr_record_of_loc_m. lia. }
  rewrite E1, E2, shr_record_of_loc_m.
  pose proof (Zdigits2_bounds m ltac:(lia)) as [Blo _].
  assert (Hd : 0 < Zdigits2 m) by (destruct m; simpl; lia).
  split; [|lia].
  assert (Hn : Z.max n 0 <= Zdigits2 m - 1) by lia.
  assert (2 ^ Z.max n 0 <= m).
  { eapply Z.le_trans; [|exact Blo]. apply Z.pow_le_mono_r; lia. }
  apply Z.div_le_lower_bound; lia.
Qed.

Lemma round_nearest_even_ge (m : Z) (l : location) : m <= round_nearest_even m l.
Proof. destruct l as [|[]]; simpl; try lia. destruct (Z.even m); lia. Qed.

Lemma binary_round_aux_pos (s : bool) (m e : Z) (l : location) :
  1 <= m -> -1074 <= e -> isPositive s (binary_round_aux prec emax s m e l).
Proof.
  intros Hm He. unfold binary_round_aux.
  pose proof (shr_fexp_pos m e l Hm He) as [H1 H2].
  destruct (shr_fexp prec emax m e l) as [mrs e1]. simpl in H1, H2.
  pose proof (round_nearest_even_ge (shr_m mrs) (loc_of_shr_record mrs)) as Hr.
  pose proof (shr_fexp_pos (round_nearest_even (shr_m mrs) (loc_of_shr_record mrs)) e1 loc_Exact
                 ltac:(lia) H2) as [H3 _].
  destruct (shr_fexp prec emax _ e1 loc_Exact) as [mrs2 e2]. simpl in H3.
  destruct (shr_m mrs2) as [|p|p]; try lia.
  destruct (e2 <=? emax - prec); [left; eauto | right; reflexivity].
Qed.

Lemma div_eucl_pair (a b : Z) : Z.div_eucl a b = (a / b, a mod b).
Proof. unfold Z.div, Z.modulo. destruct (Z.div_eucl a b). reflexivity. Qed.

Lemma SFdiv_core_pos (p q : positive) :
  Zpos q <= Zpos p * 2 ^ 1074 ->
  1 <= fst (fst (SFdiv_core_binary prec emax (Zpos p) 0 (Zpos q) 0)) /\
  -1074 <= snd (fst (SFdiv_core_binary prec emax (Zpos p) 0 (Zpos q) 0)).
Proof.
  intros Hq. unfold SFdiv_core_binary. rewrite fexp_eq.
  set (d1 := Zdigits2 (Zpos p)). set (d2 := Zdigits2 (Zpos q)).
  pose proof (Zdigits2_bounds (Zpos p) ltac:(lia)) as [P1 _].
  pose proof (Zdigits2_bounds (Zpos q) ltac:(lia)) as [_ Q2].
  fold d1 in P1. fold d2 in Q2.
  assert (Hd1 : 0 < d1) by (unfold d1; simpl; lia).
  assert (Hd2 : 0 < d2) by (unfold d2; simpl; lia).
  set (e' := Z.min (Z.max (d1 + 0 - (d2 + 0) - 53) (-1074)) (0 - 0)).
  set (s := 0 - 0 - e').
  assert (Hs : 0 <= s) by (unfold s, e'; lia).
  assert (Hm' : match s with Z.pos _ => Z.shiftl (Zpos p) s | 0 => Zpos p | Z.neg _ => 0 end
                = Zpos p * 2 ^ s).
  { destruct s as [|t|t]; [lia | | lia]. now rewrite Z.shiftl_mul_pow2 by lia. }
  rewrite Hm', div_eucl_pair. simpl fst. simpl snd.
  split; [|unfold e'; lia].
  apply Z.div_le_lower_bound; [lia|].
  rewrite Z.mul_1_r.
  assert (Hcase : s = 1074 \/ (s < 1074 /\ d2 <= d1 - 1 + s)) by (unfold s, e'; lia).
  destruct Hcase as [->|[_ Hle]]; [exact Hq|].
  assert (2 ^ d2 <= 2 ^ (d1 - 1 + s)) by (apply Z.pow_le_mono_r; lia).
  rewrite Z.pow_add_r in H by lia.
  assert (0 < 2 ^ s) by (apply Z.pow_pos_nonneg; lia).
  nia.
Qed.

Lemma roundRatio_pos (s : bool) (p q : positive) :
  Zpos q <= Zpos p * 2 ^ 1074 -> isPositive s (roundRatio s p q).
Proof.
  intros Hq. unfold roundRatio.
  pose proof (SFdiv_core_pos p q Hq) as [H1 H2].
  destruct (SFdiv_core_binary prec emax (Zpos p) 0 (Zpos q) 0) as [[m e] l].
  simpl in H1, H2. now apply binary_round_aux_pos.
Qed.

Lemma decimalValue_pos (s : bool) (n k : Z) :
  1 <= n -> -300 <= k -> isPositive s (decimalValue s n k).
Proof.
  intros Hn Hk. unfold decimalValue. destruct n as [|p|p]; try lia.
  destruct (Z.leb_spec 0 k).
  - apply roundRatio_pos.
    assert (0 < 2 ^ 1074) by (apply Z.pow_pos_nonneg; lia). lia.
  - apply roundRatio_pos.
    assert (0 < 10 ^ (- k)) by (apply Z.pow_pos_nonneg; lia).
    rewrite Z2Pos.id by lia.
    assert (10 ^ (- k) <= 10 ^ 300) by (apply Z.pow_le_mono_r; lia).
    assert (10 ^ 300 <= 2 ^ 1074) by (vm_compute; discriminate).
    nia.
Qed.

Lemma isPositive_lt (x : number) : isPositive false x -> lt num_0 x = true.
Proof. intros [(m & e & ->)| ->]; reflexivity. Qed.

(** ** Exact products and quotients *)


Lemma shr_1_even (z : Z) :
  0 < z -> shr_1 (Build_shr_record (2 * z) false false) = Build_shr_record z false false.
Proof. destruct z as [|p|p]; try lia. reflexivity. Qed.

Lemma shr_iter_exact (n : nat) (z : Z) :
  0 < z ->
  Nat.iter n shr_1 (Build_shr_record (z * 2 ^ Z.of_nat n) false false)
  = Build_shr_record z false false.
Proof.
  intros Hz. induction n as [|n IH].
  - simpl. now rewrite Z.mul_1_r.
  - rewrite Nat.iter_succ_r, Nat2Z.inj_succ, Z.pow_succ_r by lia.
    replace (z * (2 * 2 ^ Z.of_nat n)) with (2 * (z * 2 ^ Z.of_nat n)) by lia.
    rewrite shr_1_even; [exact IH|].
    assert (0 < 2 ^ Z.of_nat n) by (apply Z.pow_pos_nonneg; lia). nia.
Qed.

Lemma digits2_mul_pow2 (m : positive) (k : Z) :
  0 <= k -> Zdigits2 (Zpos m * 2 ^ k) = Zpos (digits2_pos m) + k.
Proof.
  intros Hk. pose proof (digits2_bounds m) as [Lo Hi].
  assert (P : 0 < 2 ^ k) by (apply Z.pow_pos_nonneg; lia).
  destruct (Zpos m * 2 ^ k) as [|p|p] eqn:E; try nia.
  simpl. apply digits2_unique. rewrite <- E.
  replace (Zpos (digits2_pos m) + k - 1) with (Zpos (digits2_pos m) - 1 + k) by lia.
  rewrite !Z.pow_add_r by lia. nia.
Qed.

(** Multiplying by a power of two is exact as long as the result stays
    canonical: only the exponent moves. *)
Lemma mul_pow2 (s t : bool) (m : positive) (e k : Z) :
  fexp prec emax (Zpos (digits2_pos m) + (e + k)) = e + k ->
  e + k <= 971 ->
  mul (S754_finite s m e) (S754_finite t 4503599627370496 (k - 52))
  = S754_finite (xorb s t) m (e + k).
Proof.
  intros Hc Hle. unfold mul, SFmul, binary_round_aux, shr_fexp.
  rewrite Pos2Z.inj_mul. change (Zpos 4503599627370496) with (2 ^ 52).
  rewrite digits2_mul_pow2 by lia.
  replace (Zpos (digits2_pos m) + 52 + (e + (k - 52))) with (Zpos (digits2_pos m) + (e + k)) by lia.
  rewrite Hc.
  replace (e + k - (e + (k - 52))) with 52 by lia.
  unfold shr at 1. cbv beta iota zeta.
  rewrite iter_pos_nat.
  change (shr_record_of_loc (Zpos m * 2 ^ 52) loc_Exact)
    with (Build_shr_record (Zpos m * 2 ^ Z.of_nat (Pos.to_nat 52)) false false).
  rewrite shr_iter_exact by lia.
  cbn [shr_m loc_of_shr_record round_nearest_even Zdigits2].
  replace (e + (k - 52) + 52) with (e + k) by lia.
  rewrite Hc, Z.sub_diag. cbn [shr shr_m shr_record_of_loc].
  change (emax - prec) with 971.
  destruct (Z.leb_spec (e + k) 971); [reflexivity | lia].
Qed.


(** ** Decimal digits: printing and reading back *)

Lemma digitChar_spec (d : Z) :
  0 <= d <= 9 -> isDigit (digitChar d) = true /\ digitValue (digitChar d) = d.
Proof.
  intros H.
  assert (d = 0 \/ d = 1 \/ d = 2 \/ d = 3 \/ d = 4 \/ d = 5 \/ d = 6 \/ d = 7 \/ d = 8 \/ d = 9)
    as C by lia.
  repeat destruct C as [->|C]; try subst d; split; reflexivity.
Qed.

Lemma digitsValueFrom_app (a : Z) (x y : string) :
  digitsValueFrom a (x ++ y) = digitsValueFrom (digitsValueFrom a x) y.
Proof.
  revert a. induction x as [|c r IH]; intros a; [reflexivity|].
  rewrite append_cons. simpl. apply IH.
Qed.

Lemma digitsValue_zeros (k : nat) (y : string) :
  digitsValue (zeros k ++ y) = digitsValue y.
Proof.
  unfold digitsValue. induction k as [|k IH]; [reflexivity|].
  simpl zeros. rewrite append_cons. simpl. exact IH.
Qed.

Lemma allChars_zeros (k : nat) : allChars isDigit (zeros k) = true.
Proof. induction k as [|k IH]; [reflexivity | simpl; exact IH]. Qed.

Lemma length_zeros (k : nat) : String.length (zeros k) = k.
Proof. induction k as [|k IH]; [reflexivity | simpl; now rewrite IH]. Qed.

Lemma decimalDigitsFuel_spec (fuel : nat) :
  forall n acc, 0 <= n < 10 ^ Z.of_nat fuel -> fuel <> O ->
    exists ds, decimalDigitsFuel fuel n acc = ds ++ acc /\
               allChars isDigit ds = true /\ ds <> EmptyString /\
               digitsValue ds = n.
Proof.
  induction fuel as [|k IH]; intros n acc Hn Hf; [congruence|].
  simpl decimalDigitsFuel.
  assert (Hd : 0 <= n mod 10 <= 9) by (pose proof (Z.mod_pos_bound n 10); lia).
  destruct (digitChar_spec _ Hd) as [D1 D2].
  destruct (Z.ltb_spec n 10) as [Hlt|Hge].
  - exists (String (digitChar (n mod 10)) EmptyString). repeat split.
    + simpl. now rewrite D1.
    + discriminate.
    + unfold digitsValue. simpl. rewrite D2. rewrite Z.mod_small; lia.
  - assert (Hq : 1 <= n / 10 < 10 ^ Z.of_nat k).
    { split.
      - apply Z.div_le_lower_bound; lia.
      - apply Z.div_lt_upper_bound; [lia|].
        rewrite Nat2Z.inj_succ, Z.pow_succ_r in Hn by lia. lia. }
    assert (Hk : k <> O).
    { intros ->. simpl in Hq. lia. }
    destruct (IH (n / 10) (String (digitChar (n mod 10)) acc) ltac:(lia) Hk)
      as (ds & E & A & _ & V).
    exists (ds ++ String (digitChar (n mod 10)) EmptyString). repeat split.
    + rewrite E, append_assoc. reflexivity.
    + rewrite allChars_app, A. simpl. now rewrite D1.
    + destruct ds; discriminate.
    + unfold digitsValue in *. rewrite digitsValueFrom_app, V. simpl. rewrite D2.
      pose proof (Z.div_mod n 10). lia.
Qed.

Lemma decimalDigits_spec (n : Z) :
  0 <= n ->
  allChars isDigit (decimalDigits n) = true /\ decimalDigits n <> EmptyString /\
  digitsValue (decimalDigits n) = n.
Proof.
  intros Hn. unfold decimalDigits.
  destruct (decimalDigitsFuel_spec (S (Z.to_nat (Z.log2 n))) n EmptyString)
    as (ds & E & A & N & V); [|congruence|].
  - split; [exact Hn|].
    rewrite Nat2Z.inj_succ, Z2Nat.id by apply Z.log2_nonneg.
    destruct (Z.eq_dec n 0) as [->|Hz]; [reflexivity|].
    pose proof (Z.log2_spec n ltac:(lia)) as [_ Hlog].
    eapply Z.lt_le_trans; [exact Hlog|].
    apply Z.pow_le_mono_l. lia.
  - rewrite E, append_empty_r. auto.
Qed.

Lemma prefix_drop (k : nat) (s : string) : prefix k s ++ dropChars k s = s.
Proof.
  revert s. induction k as [|k IH]; intros [|c r]; try reflexivity.
  simpl. rewrite append_cons. f_equal. apply IH.
Qed.

Lemma length_dropChars (k : nat) (s : string) :
  String.length (dropChars k s) = (String.length s - k)%nat.
Proof.
  revert s. induction k as [|k IH]; intros [|c r]; simpl; try reflexivity; try lia.
  apply IH.
Qed.

(** The text [toFixed] prints for the integer [n] and [f >= 1] digits:
    digits, a point, exactly [f] digits; read as one integer it is [n]. *)
Lemma fixedDigits_spec (n : Z) (f : nat) :
  0 <= n ->
  exists ip fp,
    fixedDigits n (S f) = ip ++ "." ++ fp /\
    allChars isDigit ip = true /\ ip <> EmptyString /\
    allChars isDigit fp = true /\ String.length fp = S f /\
    digitsValue (ip ++ fp) = n.
Proof.
  intros Hn. destruct (decimalDigits_spec n Hn) as (A & N & V).
  unfold fixedDigits.
  set (m := decimalDigits n) in *.
  set (m' := if (String.length m <=? S f)%nat
             then zeros (S f + 1 - String.length m) ++ m else m).
  assert (Hm' : allChars isDigit m' = true /\ digitsValue m' = n /\
                (S f < String.length m')%nat).
  { unfold m'. destruct (Nat.leb_spec (String.length m) (S f)).
    - rewrite allChars_app, allChars_zeros, A, digitsValue_zeros, V.
      rewrite length_append, length_zeros. repeat split. lia.
    - auto. }
  destruct Hm' as (A' & V' & L').
  exists (prefix (String.length m' - S f) m'), (dropChars (String.length m' - S f) m').
  pose proof (prefix_drop (String.length m' - S f) m') as PD.
  rewrite <- PD, allChars_app in A'. apply andb_prop in A' as [A1 A2].
  repeat split; auto.
  - intros E. rewrite E in PD.
    change (dropChars (String.length m' - S f) m' = m') in PD.
    pose proof (length_dropChars (String.length m' - S f) m') as L.
    rewrite PD in L. lia.
  - rewrite length_dropChars. lia.
  - rewrite PD. exact V'.
Qed.

Lemma digit_not_char (d c : ascii) :
  isDigit d = false -> isDigit c = true -> isChar d c = false.
Proof.
  intros Hd Hc. unfold isChar. destruct (Ascii.eqb_spec d c) as [->|]; congruence.
Qed.

Lemma span_app (p : ascii -> bool) (a b : string) :
  allChars p a = true ->
  match b with String c _ => p c = false | EmptyString => True end ->
  span p (a ++ b) = (a, b).
Proof.
  intros Ha Hb. induction a as [|c r IH].
  - destruct b as [|c t]; [reflexivity|]. simpl. now rewrite Hb.
  - simpl in Ha. apply andb_prop in Ha as [Hc Hr].
    rewrite append_cons. simpl. rewrite Hc, (IH Hr). reflexivity.
Qed.

Lemma parseUnsigned_fixed (neg : bool) (ip fp : string) :
  allChars isDigit ip = true -> ip <> EmptyString -> allChars isDigit fp = true ->
  parseUnsigned neg (ip ++ "." ++ fp) =
  decimalValue neg (digitsValue (ip ++ fp)) (- Z.of_nat (String.length fp)).
Proof.
  intros Hi Hne Hf. unfold parseUnsigned.
  destruct ip as [|c ip']; [congruence|].
  pose proof Hi as Hi'. simpl in Hi'. apply andb_prop in Hi' as [Hc _].
  assert (HI : startsWith "Infinity" (String c ip' ++ "." ++ fp) = None).
  { rewrite append_cons. cbn [startsWith].
    change (Ascii.eqb "I" c) with (isChar "I" c).
    now rewrite (digit_not_char "I" c eq_refl Hc). }
  rewrite HI.
  rewrite (span_app isDigit (String c ip') ("." ++ fp) Hi) by reflexivity.
  change ("." ++ fp) with (String "." fp).
  change (isChar "." ".") with true. cbv iota.
  pose proof (span_app isDigit fp EmptyString Hf I) as Hs.
  rewrite append_empty_r in Hs. rewrite Hs.
  simpl isEmpty. cbv iota. simpl parseExponent. reflexivity.
Qed.

Lemma parseFloat_fixed (neg : bool) (ip fp : string) :
  allChars isDigit ip = true -> ip <> EmptyString -> allChars isDigit fp = true ->
  parseFloat ((if neg then "-" else "") ++ ip ++ "." ++ fp) =
  decimalValue neg (digitsValue (ip ++ fp)) (- Z.of_nat (String.length fp)).
Proof.
  intros Hi Hne Hf. unfold parseFloat. destruct neg.
  - change ("-" ++ ip ++ "." ++ fp) with (String "-" (ip ++ "." ++ fp)).
    simpl trimStart. change (isChar "-" "-") with true. cbv iota.
    now apply parseUnsigned_fixed.
  - change ("" ++ ip ++ "." ++ fp) with (ip ++ "." ++ fp).
    rewrite <- (parseUnsigned_fixed false ip fp Hi Hne Hf).
    destruct ip as [|c ip']; [congruence|].
    simpl in Hi. apply andb_prop in Hi as [Hc _].
    rewrite append_cons. simpl trimStart. rewrite (digit_not_space c Hc).
    rewrite (digit_not_char "-" c eq_refl Hc), (digit_not_char "+" c eq_refl Hc).
    reflexivity.
Qed.

(** ** [toFixed] followed by [parseFloat] rounds to decimal places *)

Lemma roundScaled_nonneg (m : positive) (e : Z) (f : nat) : 0 <= roundScaled m e f.
Proof.
  unfold roundScaled.
  assert (0 < 10 ^ Z.of_nat f) by (apply Z.pow_pos_nonneg; lia).
  destruct (Z.leb_spec 0 e).
  - assert (0 < 2 ^ e) by (apply Z.pow_pos_nonneg; lia). nia.
  - assert (0 < 2 ^ (- e)) by (apply Z.pow_pos_nonneg; lia).
    apply Z.div_pos; nia.
Qed.



Lemma toFixed_unfold (y : number) (f : nat) :
  (f < 100)%nat ->
  toFixed y (Z.of_nat (S f)) =
  Normal match y with
         | S754_nan => "NaN"
         | S754_infinity s => if s then "-Infinity" else "Infinity"
         | S754_zero _ => fixedDigits 0 (S f)
         | S754_finite s m e =>
             (if s then "-" else "") ++
             (if atLeast1e21 m e then toStringLarge m e
              else fixedDigits (roundScaled m e (S f)) (S f))
         end.
Proof.
  intros Hf. unfold toFixed.
  destruct (Z.ltb_spec (Z.of_nat (S f)) 0); [lia|].
  destruct (Z.ltb_spec 100 (Z.of_nat (S f))); [lia|].
  cbv [orb]. rewrite Nat2Z.id. reflexivity.
Qed.

Lemma parseFloat_fixedDigits (s : bool) (n : Z) (f : nat) :
  0 <= n ->
  parseFloat ((if s then "-" else "") ++ fixedDigits n (S f)) =
  decimalValue s n (- Z.of_nat (S f)).
Proof.
  intros Hn.
  destruct (fixedDigits_spec n f Hn) as (ip & fp & -> & Hi & Hne & Hp & L & V).
  rewrite (parseFloat_fixed s ip fp Hi Hne Hp), V, L. reflexivity.
Qed.

(** The value read back from the text printed for a finite Number. *)
Lemma toFixed_parseFloat_finite (s : bool) (m : positive) (e : Z) (f : nat) :
  (f < 100)%nat -> atLeast1e21 m e = false ->
  exists txt, toFixed (S754_finite s m e) (Z.of_nat (S f)) = Normal txt /\
              parseFloat txt = decimalValue s (roundScaled m e (S f)) (- Z.of_nat (S f)).
Proof.
  intros Hf H21. eexists. split; [apply (toFixed_unfold _ f Hf)|].
  rewrite H21. apply parseFloat_fixedDigits, roundScaled_nonneg.
Qed.


(** ** Comparisons of canonical Numbers against the constants *)

Lemma below_limit_digits (m : positive) (e : Z) :
  Zpos (digits2_pos m) <= 53 -> e < 0 -> atLeast1e21 m e = false.
Proof.
  intros Hd He. pose proof (digits2_bounds m) as [_ Hi].
  assert (2 ^ Zpos (digits2_pos m) <= 2 ^ 53) by (apply Z.pow_le_mono_r; lia).
  unfold atLeast1e21. destruct (Z.leb_spec 0 e); [lia|].
  assert (0 < 2 ^ (- e)) by (apply Z.pow_pos_nonneg; lia).
  apply Z.leb_gt.
  assert (2 ^ 53 < 10 ^ 21) by reflexivity. nia.
Qed.

Lemma below_limit (m : positive) (e : Z) :
  bounded prec emax m e = true -> e < 0 -> atLeast1e21 m e = false.
Proof.
  intros Hb. destruct (bounded_facts _ _ Hb) as (_ & Hd & _).
  now apply below_limit_digits.
Qed.

Lemma SFcompare_finite_pos (m1 m2 : positive) (e1 e2 : Z) :
  SFcompare (S754_finite false m1 e1) (S754_finite false m2 e2) =
  Some match (e1 ?= e2)%Z with
       | Lt => Lt
       | Gt => Gt
       | Eq => (Zpos m1 ?= Zpos m2)%Z
       end.
Proof.
  cbn [SFcompare]. rewrite Pos.compare_cont_spec.
  change (Zpos m1 ?= Zpos m2)%Z with (m1 ?= m2)%positive.
  destruct (m1 ?= m2)%positive; reflexivity.
Qed.

Lemma lt_one_value (m : positive) (e : Z) :
  bounded prec emax m e = true ->
  lt (S754_finite false m e) num_1 = true -> e < 0 /\ Zpos m < 2 ^ (- e).
Proof.
  intros Hb. destruct (bounded_facts _ _ Hb) as (_ & Hd & _).
  pose proof (digits2_bounds m) as [_ Hi].
  assert (2 ^ Zpos (digits2_pos m) <= 2 ^ 53) by (apply Z.pow_le_mono_r; lia).
  unfold lt, SFltb, num_1. rewrite SFcompare_finite_pos.
  destruct (Z.compare_spec e (-52)) as [->|Hlt|Hgt]; try discriminate.
  - destruct (Z.compare_spec (Zpos m) 4503599627370496) as [|Hm|]; try discriminate.
    intros _. split; [lia|]. change (2 ^ (- -52)) with 4503599627370496. exact Hm.
  - intros _. split; [lia|].
    assert (2 ^ 53 <= 2 ^ (- e)) by (apply Z.pow_le_mono_r; lia). lia.
Qed.

Lemma not_lt_one_value (m : positive) (e : Z) :
  bounded prec emax m e = true ->
  lt (S754_finite false m e) num_1 = false -> e < 0 -> 2 ^ (- e) <= Zpos m.
Proof.
  intros Hb. destruct (bounded_facts _ _ Hb) as (He & _ & Hn).
  pose proof (digits2_bounds m) as [Lo _].
  unfold lt, SFltb, num_1. rewrite SFcompare_finite_pos.
  destruct (Z.compare_spec e (-52)) as [->|Hlt|Hgt]; try discriminate.
  - destruct (Z.compare_spec (Zpos m) 4503599627370496) as [Hm|Hm|Hm]; try discriminate;
      intros _ _; change (2 ^ (- -52)) with 4503599627370496; lia.
  - intros _ Hneg. rewrite Hn in Lo by lia.
    assert (2 ^ (- e) <= 2 ^ (53 - 1)) by (apply Z.pow_le_mono_r; lia). lia.
Qed.

Lemma ge_0_005_value (m : positive) (e : Z) :
  bounded prec emax m e = true ->
  ge (S754_finite false m e) num_0_005 = true ->
  e < 0 -> 2 ^ (- e) <= 200 * Zpos m.
Proof.
  intros Hb. destruct (bounded_facts _ _ Hb) as (He & _ & Hn).
  pose proof (digits2_bounds m) as [Lo _].
  unfold ge, SFleb, num_0_005. rewrite SFcompare_finite_pos.
  destruct (Z.compare_spec (-60) e) as [<-|Hlt|Hgt].
  - destruct (Z.compare_spec 5764607523034235 (Zpos m)) as [Hm|Hm|Hm]; try discriminate;
      intros _ _; change (2 ^ (- -60)) with 1152921504606846976; lia.
  - intros _ Hneg. rewrite Hn in Lo by lia.
    assert (2 ^ (- e) <= 2 ^ 59) by (apply Z.pow_le_mono_r; lia).
    change (2 ^ (53 - 1)) with 4503599627370496 in Lo.
    change (2 ^ 59) with 576460752303423488 in H. lia.
  - discriminate.
Qed.

Lemma bind_Normal {A B} (a : A) (k : A -> completion B) :
  mbind k (Normal a) = k a.
Proof. reflexivity. Qed.

(** A canonical Number of at least 0.005 is displayed as a positive
    Number. *)
Lemma formatQuantity_positive (raw : number) :
  isValid raw = true -> ge raw num_0_005 = true ->
  exists q, formatQuantity raw = Normal q /\ lt num_0 q = true.
Proof.
  intros Hv Hge. destruct raw as [s|[]| |[] m e]; try discriminate.
  - (* +Infinity *) eexists. split; reflexivity.
  - (* a finite positive Number *)
    unfold isValid in Hv. simpl in Hv.
    unfold formatQuantity.
    destruct (lt (S754_finite false m e) num_1) eqn:Hlt.
    + destruct (lt_one_value _ _ Hv Hlt) as [He Hm].
      destruct (toFixed_parseFloat_finite false m e 1 ltac:(lia) (below_limit _ _ Hv He))
        as (txt & E & P).
      change (Z.of_nat 2) with 2 in E. rewrite E, bind_Normal.
      eexists. split; [reflexivity|]. rewrite P.
      apply isPositive_lt, decimalValue_pos; [|lia].
      pose proof (ge_0_005_value _ _ Hv Hge He) as H5.
      unfold roundScaled. destruct (Z.leb_spec 0 e); [lia|].
      assert (0 < 2 ^ (- e)) by (apply Z.pow_pos_nonneg; lia).
      apply Z.div_le_lower_bound; [lia|].
      change (10 ^ Z.of_nat 2) with 100. lia.
    + destruct (isInteger (S754_finite false m e)) eqn:Hint.
      * eexists. split; reflexivity.
      * assert (He : e < 0).
        { simpl in Hint. apply orb_false_iff in Hint as [Hint _].
          now apply Z.leb_gt in Hint. }
        destruct (toFixed_parseFloat_finite false m e 0 ltac:(lia) (below_limit _ _ Hv He))
          as (txt & E & P).
        change (Z.of_nat 1) with 1 in E. rewrite E, bind_Normal.
        eexists. split; [reflexivity|]. rewrite P.
        apply isPositive_lt, decimalValue_pos; [|lia].
        pose proof (not_lt_one_value _ _ Hv Hlt He) as H1.
        unfold roundScaled. destruct (Z.leb_spec 0 e); [lia|].
        assert (0 < 2 ^ (- e)) by (apply Z.pow_pos_nonneg; lia).
        apply Z.div_le_lower_bound; [lia|].
        change (10 ^ Z.of_nat 1) with 10. lia.
Qed.

Lemma lt_0_005_value (m : positive) (e : Z) :
  bounded prec emax m e = true ->
  lt (S754_finite false m e) num_0_005 = true ->
  e <= -60 /\ 200 * Zpos m < 2 ^ (- e).
Proof.
  intros Hb. destruct (bounded_facts _ _ Hb) as (_ & Hd & _).
  pose proof (digits2_bounds m) as [_ Hi].
  assert (2 ^ Zpos (digits2_pos m) <= 2 ^ 53) by (apply Z.pow_le_mono_r; lia).
  unfold lt, SFltb, num_0_005. rewrite SFcompare_finite_pos.
  destruct (Z.compare_spec e (-60)) as [->|Hlt|Hgt]; try discriminate.
  - destruct (Z.compare_spec (Zpos m) 5764607523034235) as [|Hm|]; try discriminate.
    intros _. split; [lia|]. change (2 ^ (- -60)) with 1152921504606846976. lia.
  - intros _. split; [lia|].
    assert (2 ^ 61 <= 2 ^ (- e)) by (apply Z.pow_le_mono_r; lia).
    change (2 ^ 53) with 9007199254740992 in H.
    change (2 ^ 61) with 2305843009213693952 in H0. lia.
Qed.

(** A canonical Number from 0 up to, but not including, 0.005 is
    displayed as 0. *)
Lemma formatQuantity_zero (raw : number) :
  isValid raw = true -> ge raw num_0 = true -> lt raw num_0_005 = true ->
  formatQuantity raw = Normal num_0.
Proof.
  intros Hv Hge Hlt. destruct raw as [s|s| |s m e].
  - destruct s; vm_compute; reflexivity.
  - destruct s; discriminate.
  - discriminate.
  - destruct s; [discriminate|].
  unfold isValid in Hv. simpl in Hv.
  destruct (lt_0_005_value _ _ Hv Hlt) as [He Hm].
  assert (H1 : lt (S754_finite false m e) num_1 = true).
  { unfold lt, SFltb, num_1. rewrite SFcompare_finite_pos.
    destruct (Z.compare_spec e (-52)); try reflexivity; lia. }
  unfold formatQuantity. rewrite H1.
  destruct (toFixed_parseFloat_finite false m e 1 ltac:(lia)
              (below_limit _ _ Hv ltac:(lia))) as (txt & E & P).
  change (Z.of_nat 2) with 2 in E. rewrite E, bind_Normal.
  simpl. rewrite P. f_equal.
  assert (Hn : roundScaled m e 2 = 0).
  { unfold roundScaled. destruct (Z.leb_spec 0 e); [lia|].
    assert (0 < 2 ^ (- e)) by (apply Z.pow_pos_nonneg; lia).
    change (10 ^ Z.of_nat 2) with 100.
    apply Z.div_small. lia. }
  rewrite Hn. reflexivity.
Qed.

(** ** The arithmetic stays within the canonical Numbers *)

Lemma Zdigits2_nonneg (m : Z) : 0 <= Zdigits2 m.
Proof. destruct m; simpl; lia. Qed.

Lemma Zdigits2_lower (q k : Z) : 0 <= k -> 2 ^ k <= q -> k + 1 <= Zdigits2 q.
Proof.
  intros Hk Hq.
  assert (Hpos : 0 < q) by (assert (0 < 2 ^ k) by (apply Z.pow_pos_nonneg; lia); lia).
  pose proof (Zdigits2_bounds q Hpos) as [_ Hi].
  pose proof (Zdigits2_nonneg q).
  destruct (Z.lt_ge_cases k (Zdigits2 q)); [lia|].
  assert (2 ^ Zdigits2 q <= 2 ^ k) by (apply Z.pow_le_mono_r; lia). lia.
Qed.

Lemma Zdigits2_mono (a b : Z) : 0 < a -> a <= b -> Zdigits2 a <= Zdigits2 b.
Proof.
  intros Ha Hab. pose proof (Zdigits2_bounds a Ha) as [Lo _].
  assert (Hd : 0 < Zdigits2 a) by (destruct a; simpl; lia).
  pose proof (Zdigits2_lower b (Zdigits2 a - 1) ltac:(lia) ltac:(lia)). lia.
Qed.

Lemma Zdigits2_div_pow2 (m n : Z) :
  0 <= n -> 0 < m / 2 ^ n -> Zdigits2 (m / 2 ^ n) = Zdigits2 m - n.
Proof.
  intros Hn Hq.
  assert (P : 0 < 2 ^ n) by (apply Z.pow_pos_nonneg; lia).
  assert (Hm : 0 < m).
  { destruct (Z.lt_ge_cases 0 m); [assumption|].
    assert (m / 2 ^ n <= 0) by (apply Z.div_le_upper_bound; lia). lia. }
  pose proof (Zdigits2_bounds m Hm) as [Lo Hi].
  assert (Hge : 2 ^ n <= m).
  { destruct (Z.lt_ge_cases m (2 ^ n)); [|assumption].
    rewrite Z.div_small in Hq by lia. lia. }
  assert (Hd : n + 1 <= Zdigits2 m) by (apply Zdigits2_lower; lia).
  destruct (m / 2 ^ n) as [|p|p] eqn:E; try lia.
  simpl. apply digits2_unique. rewrite <- E. split.
  - apply Z.div_le_lower_bound; [lia|].
    rewrite <- Z.pow_add_r by lia.
    replace (n + (Zdigits2 m - n - 1)) with (Zdigits2 m - 1) by lia. exact Lo.
  - apply Z.div_lt_upper_bound; [lia|].
    rewrite <- Z.pow_add_r by lia.
    replace (n + (Zdigits2 m - n)) with (Zdigits2 m) by lia. exact Hi.
Qed.

(** Shifting to the exponent of the format gives a canonical mantissa. *)
Lemma shr_fexp_canonical (m e : Z) (l : location) :
  0 <= m -> e <= fexp prec emax (Zdigits2 m + e) ->
  let r := shr_fexp prec emax m e l in
  snd r = fexp prec emax (Zdigits2 m + e) /\
  0 <= shr_m (fst r) /\
  (0 < shr_m (fst r) -> fexp prec emax (Zdigits2 (shr_m (fst r)) + snd r) = snd r) /\
  (shr_m (fst r) = 0 -> snd r = -1074).
Proof.
  intros Hm He. unfold shr_fexp.
  set (n := fexp prec emax (Zdigits2 m + e) - e).
  destruct (shr_m_spec (shr_record_of_loc m l) e n) as [E1 E2].
  { rewrite shr_record_of_loc_m. exact Hm. }
  cbv zeta. rewrite E1, E2, shr_record_of_loc_m.
  assert (Hn : 0 <= n) by (unfold n; lia).
  rewrite (Z.max_l n 0) by lia.
  assert (P : 0 < 2 ^ n) by (apply Z.pow_pos_nonneg; lia).
  split; [unfold n; lia|]. split; [apply Z.div_pos; lia|]. split.
  - intros Hq. rewrite Zdigits2_div_pow2 by lia.
    replace (Zdigits2 m - n + (e + n)) with (Zdigits2 m + e) by lia.
    unfold n. lia.
  - intros Hz. unfold n in *. rewrite fexp_eq in *.
    destruct (Z.eq_dec m 0) as [->|Hm0]; [simpl in *; lia|].
    assert (Hlt : m < 2 ^ (Z.max (Zdigits2 m + e - 53) (-1074) - e)).
    { apply Z.div_small_iff in Hz; lia. }
    pose proof (Zdigits2_bounds m ltac:(lia)) as [Lo _].
    assert (Hd : 0 < Zdigits2 m) by (destruct m; simpl; lia).
    destruct (Z.lt_ge_cases (Zdigits2 m - 1) (Z.max (Zdigits2 m + e - 53) (-1074) - e));
      [lia|].
    assert (2 ^ (Z.max (Zdigits2 m + e - 53) (-1074) - e) <= 2 ^ (Zdigits2 m - 1))
      by (apply Z.pow_le_mono_r; lia).
    lia.
Qed.

Lemma binary_round_aux_valid (s : bool) (m e : Z) (l : location) :
  0 <= m -> e <= fexp prec emax (Zdigits2 m + e) ->
  valid_binary prec emax (binary_round_aux prec emax s m e l) = true.
Proof.
  intros Hm He. unfold binary_round_aux.
  pose proof (shr_fexp_canonical m e l Hm He) as (E1 & N1 & C1 & Z1).
  destruct (shr_fexp prec emax m e l) as [mrs e1]. simpl in E1, N1, C1, Z1.
  set (m2 := round_nearest_even (shr_m mrs) (loc_of_shr_record mrs)).
  assert (H2 : shr_m mrs <= m2 <= shr_m mrs + 1).
  { unfold m2. destruct (loc_of_shr_record mrs) as [|[]]; simpl; try lia.
    destruct (Z.even (shr_m mrs)); lia. }
  assert (He1 : e1 <= fexp prec emax (Zdigits2 m2 + e1)).
  { destruct (Z.eq_dec (shr_m mrs) 0) as [Hz|Hnz].
    - rewrite (Z1 Hz), fexp_eq. lia.
    - assert (Hpos : 0 < shr_m mrs) by lia.
      pose proof (Zdigits2_mono (shr_m mrs) m2 Hpos ltac:(lia)).
      specialize (C1 Hpos). rewrite fexp_eq in *. lia. }
  pose proof (shr_fexp_canonical m2 e1 loc_Exact ltac:(lia) He1) as (E2 & N2 & C2 & _).
  destruct (shr_fexp prec emax m2 e1 loc_Exact) as [mrs2 e2]. simpl in E2, N2, C2.
  destruct (shr_m mrs2) as [|p|p] eqn:Ep; try reflexivity; try lia.
  destruct (Z.leb_spec e2 (emax - prec)) as [Hle|Hgt]; [|reflexivity].
  simpl. unfold bounded, canonical_mantissa.
  specialize (C2 ltac:(lia)). simpl in C2. rewrite C2, Z.eqb_refl. simpl.
  now apply Z.leb_le.
Qed.

Lemma valid_facts (m : positive) (e : Z) :
  bounded prec emax m e = true ->
  e = Z.max (Zpos (digits2_pos m) + e - 53) (-1074) /\ e <= 971.
Proof.
  unfold bounded, canonical_mantissa. rewrite fexp_eq. intros H.
  apply andb_prop in H as [H1 H2]. apply Z.eqb_eq in H1. apply Z.leb_le in H2.
  change (emax - prec) with 971 in H2. lia.
Qed.

Lemma mul_valid (x y : number) :
  isValid x = true -> isValid y = true -> isValid (mul x y) = true.
Proof.
  destruct x as [sx|sx| |sx mx ex], y as [sy|sy| |sy my ey]; try reflexivity.
  unfold isValid. simpl valid_binary. intros Hx Hy.
  unfold mul, SFmul. apply binary_round_aux_valid; [lia|].
  destruct (valid_facts _ _ Hx) as [Ex _]. destruct (valid_facts _ _ Hy) as [Ey _].
  pose proof (digits2_bounds mx) as [Lx _]. pose proof (digits2_bounds my) as [Ly _].
  set (dx := Zpos (digits2_pos mx)) in *. set (dy := Zpos (digits2_pos my)) in *.
  assert (Hdx : 0 < dx) by (unfold dx; lia). assert (Hdy : 0 < dy) by (unfold dy; lia).
  assert (HD : dx + dy - 1 <= Zdigits2 (Zpos (mx * my))).
  { replace (dx + dy - 1) with ((dx - 1 + (dy - 1)) + 1) by lia.
    apply Zdigits2_lower; [lia|].
    rewrite Z.pow_add_r by lia. rewrite Pos2Z.inj_mul. nia. }
  rewrite fexp_eq. lia.
Qed.

(** The quotient handed to the rounding is developed to enough bits. *)
Lemma SFdiv_core_precise (mx my : positive) (ex ey : Z) :
  let r := SFdiv_core_binary prec emax (Zpos mx) ex (Zpos my) ey in
  0 <= fst (fst r) /\
  snd (fst r) <= fexp prec emax (Zdigits2 (fst (fst r)) + snd (fst r)).
Proof.
  pose proof (digits2_bounds mx) as [Lx Ux]. pose proof (digits2_bounds my) as [Ly Uy].
  unfold SFdiv_core_binary. cbv zeta. rewrite fexp_eq.
  change (Zdigits2 (Zpos mx)) with (Zpos (digits2_pos mx)).
  change (Zdigits2 (Zpos my)) with (Zpos (digits2_pos my)).
  set (dx := Zpos (digits2_pos mx)) in *. set (dy := Zpos (digits2_pos my)) in *.
  assert (Hdx : 0 < dx) by (unfold dx; lia). assert (Hdy : 0 < dy) by (unfold dy; lia).
  set (e' := Z.min (Z.max (dx + ex - (dy + ey) - 53) (-1074)) (ex - ey)).
  set (s := ex - ey - e').
  assert (Hs : 0 <= s) by (unfold s, e'; lia).
  assert (Hm' : match s with Z.pos _ => Z.shiftl (Zpos mx) s | 0 => Zpos mx | Z.neg _ => 0 end
                = Zpos mx * 2 ^ s).
  { destruct s as [|t|t]; [lia | | lia]. now rewrite Z.shiftl_mul_pow2 by lia. }
  rewrite Hm', div_eucl_pair. cbv zeta. simpl fst. simpl snd.
  assert (Ps : 0 < 2 ^ s) by (apply Z.pow_pos_nonneg; lia).
  set (q := Zpos mx * 2 ^ s / Zpos my).
  assert (Hq : 0 <= q) by (apply Z.div_pos; nia).
  split; [exact Hq|]. rewrite fexp_eq.
  destruct (Z.eq_dec q 0) as [Hz|Hnz].
  - rewrite Hz. simpl Zdigits2.
    assert (Hlt : Zpos mx * 2 ^ s < Zpos my).
    { apply Z.div_small_iff in Hz; lia. }
    destruct (Z.le_gt_cases e' (-1074)) as [Hle|Hgt]; [lia|].
    exfalso.
    assert (Hs' : dy - dx + 53 <= s) by (unfold s, e' in *; lia).
    assert (2 ^ (dx - 1 + (dy - dx + 53)) <= 2 ^ (dx - 1 + s))
      by (apply Z.pow_le_mono_r; lia).
    rewrite (Z.pow_add_r 2 (dx - 1) s) in H by lia.
    assert (2 ^ dy <= 2 ^ (dx - 1 + (dy - dx + 53))) by (apply Z.pow_le_mono_r; lia).
    nia.
  - assert (Hd : dx + s - dy <= Zdigits2 q).
    { destruct (Z.le_gt_cases 0 (dx - 1 + s - dy)) as [Hk|Hk].
      - replace (dx + s - dy) with ((dx - 1 + s - dy) + 1) by lia.
        apply Zdigits2_lower; [exact Hk|].
        apply Z.div_le_lower_bound; [lia|].
        assert (E : 2 ^ dy * 2 ^ (dx - 1 + s - dy) = 2 ^ (dx - 1) * 2 ^ s).
        { rewrite <- !Z.pow_add_r by lia. f_equal. lia. }
        assert (0 < 2 ^ (dx - 1 + s - dy)) by (apply Z.pow_pos_nonneg; lia).
        nia.
      - assert (0 < Zdigits2 q) by (destruct q; simpl; lia). lia. }
    unfold s, e' in *. lia.
Qed.

Lemma div_valid (x y : number) : isValid (div x y) = true.
Proof.
  destruct x as [sx|sx| |sx mx ex], y as [sy|sy| |sy my ey]; try reflexivity.
  unfold isValid, div, SFdiv.
  pose proof (SFdiv_core_precise mx my ex ey) as [H1 H2].
  destruct (SFdiv_core_binary prec emax (Zpos mx) ex (Zpos my) ey) as [[q e'] l].
  simpl in H1, H2. now apply binary_round_aux_valid.
Qed.

Lemma roundRatio_valid (s : bool) (p q : positive) : isValid (roundRatio s p q) = true.
Proof.
  unfold isValid, roundRatio.
  pose proof (SFdiv_core_precise p q 0 0) as [H1 H2].
  destruct (SFdiv_core_binary prec emax (Zpos p) 0 (Zpos q) 0) as [[m e] l].
  simpl in H1, H2. now apply binary_round_aux_valid.
Qed.

End NumberFacts.

(* ===================================================================== *)
(** * Completions of list traversals *)
(* ===================================================================== *)

Section Traversals.

Context {A B : Type} (f : A -> completion B).

Lemma mapM_cons (a : A) (l : list A) :
  mapM f (a :: l) = b ← f a; bs ← mapM f l; mret (b :: bs).
Proof. reflexivity. Qed.

Lemma mapM_Normal_inv (l : list A) :
  forall bs, mapM f l = Normal bs -> Forall2 (fun a b => f a = Normal b) l bs.
Proof.
  induction l as [|a l IH]; intros bs H.
  - injection H as <-. constructor.
  - rewrite mapM_cons in H. destruct (f a) as [b|e] eqn:Ea; [|discriminate].
    rewrite bind_Normal in H.
    destruct (mapM f l) as [bs'|e] eqn:El; [|discriminate].
    rewrite bind_Normal in H. injection H as <-.
    constructor; [exact Ea | apply IH; reflexivity].
Qed.

Lemma mapM_Normal_intro (l : list A) (bs : list B) :
  Forall2 (fun a b => f a = Normal b) l bs -> mapM f l = Normal bs.
Proof.
  induction 1 as [|a b l bs Ha _ IH]; [reflexivity|].
  rewrite mapM_cons, Ha, bind_Normal, IH, bind_Normal. reflexivity.
Qed.

Lemma mapM_total (l : list A) :
  (forall a, In a l -> exists b, f a = Normal b) ->
  exists bs, mapM f l = Normal bs.
Proof.
  induction l as [|a l IH]; intros H.
  - exists []. reflexivity.
  - destruct (H a (or_introl eq_refl)) as (b & Hb).
    destruct IH as (bs & Hbs); [intros x Hx; apply H; right; exact Hx|].
    exists (b :: bs). rewrite mapM_cons, Hb, bind_Normal, Hbs, bind_Normal. reflexivity.
Qed.

End Traversals.


Lemma Forall2_In_l {A B} (R : A -> B -> Prop) (l : list A) (l' : list B) (a : A) :
  Forall2 R l l' -> In a l -> exists b, In b l' /\ R a b.
Proof.
  induction 1 as [|x y l l' Hxy _ IH]; intros Hin; [destruct Hin|].
  destruct Hin as [->|Hin].
  - exists y. split; [left; reflexivity | exact Hxy].
  - destruct (IH Hin) as (b & Hb & Hr). exists b. split; [right; exact Hb | exact Hr].
Qed.

Lemma Forall2_In_r {A B} (R : A -> B -> Prop) (l : list A) (l' : list B) (b : B) :
  Forall2 R l l' -> In b l' -> exists a, In a l /\ R a b.
Proof.
  induction 1 as [|x y l l' Hxy _ IH]; intros Hin; [destruct Hin|].
  destruct Hin as [->|Hin].
  - exists x. split; [left; reflexivity | exact Hxy].
  - destruct (IH Hin) as (a & Ha & Hr). exists a. split; [right; exact Ha | exact Hr].
Qed.

Lemma Forall2_impl_In {A B} (P Q : A -> B -> Prop) (l : list A) (l' : list B) :
  Forall2 P l l' -> (forall a b, In a l -> P a b -> Q a b) -> Forall2 Q l l'.
Proof.
  induction 1 as [|a b l l' Hab _ IH]; intros H; constructor.
  - apply H; [left; reflexivity | exact Hab].
  - apply IH. intros x y Hx. apply H. right. exact Hx.
Qed.

(* ===================================================================== *)
(** * Serving scaling *)
(* ===================================================================== *)

Lemma toFixed_two (x : number) : exists txt, toFixed x 2 = Normal txt.
Proof. eexists. apply (toFixed_unfold x 1). lia. Qed.

Lemma toFixed_one (x : number) : exists txt, toFixed x 1 = Normal txt.
Proof. eexists. apply (toFixed_unfold x 0). lia. Qed.

Lemma formatQuantity_returns (x : number) : exists q, formatQuantity x = Normal q.
Proof.
  unfold formatQuantity. destruct (lt x num_1).
  - destruct (toFixed_two x) as (txt & ->). eexists. reflexivity.
  - destruct (isInteger x); [eexists; reflexivity|].
    destruct (toFixed_one x) as (txt & ->). eexists. reflexivity.
Qed.

(** C3, as the specification states it, fails: with zero servings, which
    the specification wants rejected, the scaler returns a list. *)
Lemma scaler_accepts_zero_servings :
  ~ (rejects pancakes num_0 <->
     ge num_0 num_0 = true \/ ge num_0 (baseServings pancakes) = true).
Proof.
  intros [_ H]. destruct (H (or_introl eq_refl)) as (e & He).
  vm_compute in He. discriminate.
Qed.

(** C3, amended: the serving scaler never signals an error. For every
    recipe and every serving count, positive or not, inside the range of
    the slider or not, it returns one line per ingredient. *)
Lemma scaler_returns (recipe : Recipe) (servings : number) :
  exists lines, adjustedIngredients recipe servings = Normal lines.
Proof.
  apply mapM_total. intros ing _. unfold ingredientLine.
  destruct (formatQuantity_returns
              (mul (ingredientQuantity ing) (multiplier recipe servings))) as (q & ->).
  eexists. reflexivity.
Qed.

Theorem scaler_never_rejects (recipe : Recipe) (servings : number) :
  exists lines,
    adjustedIngredients recipe servings = Normal lines /\
    List.length lines = List.length (ingredients recipe) /\
    ~ rejects recipe servings.
Proof.
  destruct (scaler_returns recipe servings) as (lines & H).
  unfold rejects. exists lines. split; [exact H|]. split.
  - apply mapM_Normal_inv in H. symmetry. eapply Forall2_length. exact H.
  - intros (e & He). rewrite H in He. discriminate.
Qed.

(** C4, as the specification states it, fails: a positive quantity whose
    scaled value is below 0.005 is displayed as 0, here 0.004 g at the
    recipe's own serving count. *)
Lemma tiny_quantity_displays_zero :
  lt num_0 (lit "0.004") = true /\
  ge (baseServings saffronRice) num_1 = true /\
  isInteger num_2 = true /\ lt num_0 num_2 = true /\
  ~ displaysPositive saffronRice num_2.
Proof.
  repeat (split; [vm_compute; reflexivity|]).
  intros H.
  assert (E : adjustedIngredients saffronRice num_2 =
              Normal [mkIngredientLine "saffron" num_0 "g"]) by (vm_compute; reflexivity).
  specialize (H _ E). inversion H as [|x l Hx _]. discriminate.
Qed.

(** C4, amended: for every recipe whose ingredient quantities are Numbers
    and every serving count, the scaler returns its lines, and the quantity
    shown on a line is strictly greater than 0 whenever the raw scaled
    quantity [quantity * (servings / baseServings)] is at least 0.005; a
    raw quantity from 0 up to 0.005 is shown as 0. *)
Theorem displayed_quantity_positive (recipe : Recipe) (servings : number) :
  Forall (fun i => isValid (ingredientQuantity i) = true) (ingredients recipe) ->
  exists lines,
    adjustedIngredients recipe servings = Normal lines /\
    Forall2 (fun ingredient line =>
               let raw := mul (ingredientQuantity ingredient) (multiplier recipe servings) in
               (ge raw num_0_005 = true -> lt num_0 (lineQuantity line) = true) /\
               (ge raw num_0 = true -> lt raw num_0_005 = true ->
                lineQuantity line = num_0))
            (ingredients recipe) lines.
Proof.
  intros Hall.
  destruct (scaler_returns recipe servings) as (lines & H).
  exists lines. split; [exact H|].
  apply mapM_Normal_inv in H.
  eapply Forall2_impl_In; [exact H|].
  intros ing line Hin Hl raw. unfold ingredientLine in Hl. fold raw in Hl.
  assert (Hv : isValid raw = true).
  { apply mul_valid; [|apply div_valid].
    exact (proj1 (List.Forall_forall _ _) Hall ing Hin). }
  split.
  - intros Hge. destruct (formatQuantity_positive raw Hv Hge) as (q & Hq & Hpos).
    rewrite Hq, bind_Normal in Hl. injection Hl as <-. exact Hpos.
  - intros Hge Hlt. rewrite (formatQuantity_zero raw Hv Hge Hlt), bind_Normal in Hl.
    injection Hl as <-. reflexivity.
Qed.

Lemma displayed_quantity_positive_witness :
  lt num_0 (lit "3") = true /\ lt num_0 (lit "0.38") = true.
Proof.
  destruct (displayed_quantity_positive pancakes (lit "6")) as (lines & E & F).
  - repeat constructor.
  - vm_compute in E. injection E as <-.
    inversion F as [|i l ins lns [Hflour _] F']; subst.
    inversion F' as [|i' l' ins' lns' [Hsalt _] _]; subst.
    split; [apply Hflour | apply Hsalt]; vm_compute; reflexivity.
Defined.





(* ===================================================================== *)
(** * Vision post-processing *)
(* ===================================================================== *)

Lemma filter_map_swap {A B} (f : B -> bool) (g : A -> B) (l : list A) :
  List.filter f (map g l) = map g (List.filter (fun x => f (g x)) l).
Proof.
  induction l as [|a l IH]; [reflexivity|]. simpl.
  destruct (f (g a)); simpl; now rewrite IH.
Qed.

Lemma filter_filter {A} (p q : A -> bool) (l : list A) :
  List.filter p (List.filter q l) = List.filter (fun x => q x && p x) l.
Proof.
  induction l as [|a l IH]; [reflexivity|]. simpl.
  destruct (q a); simpl; [destruct (p a)|]; now rewrite IH.
Qed.

(** The two filters and the map of the source keep exactly the surviving
    detections. *)
Lemma survivingIngredients_spec (predictions : list Prediction) :
  survivingIngredients predictions = map toIngredient (survivingDetections predictions).
Proof.
  unfold survivingIngredients, survivingDetections.
  rewrite filter_map_swap, filter_filter. reflexivity.
Qed.

Lemma fold_scores (l : list Prediction) :
  forall acc,
    fold_left (fun total ingredient => add total (ingScore ingredient)) (map toIngredient l) acc
    = fold_left add (map score l) acc.
Proof. induction l as [|p l IH]; intros acc; [reflexivity | apply IH]. Qed.

Lemma pantryEntry_returns (i : Ingredient) : exists item, pantryEntry i = Normal item.
Proof.
  unfold pantryEntry. destruct (toFixed_two (mul (ingScore i) num_2)) as (txt & ->).
  eexists. reflexivity.
Qed.

(** What the post-processing returns, whatever the predictions: one
    pantry entry per surviving detection, and the mean confidence (0 when
    nothing survives). *)
Lemma processDetections_returns (predictions : list Prediction) :
  exists pantry,
    Forall2 (fun d item => pantryEntry (toIngredient d) = Normal item)
            (survivingDetections predictions) pantry /\
    processDetections predictions =
    Normal (mkDetectionResult pantry
              match survivingDetections predictions with
              | [] => num_0
              | _ :: _ => meanOf (map score (survivingDetections predictions))
              end).
Proof.
  unfold processDetections. rewrite survivingIngredients_spec.
  destruct (survivingDetections predictions) as [|d ds] eqn:E.
  - exists []. split; [constructor | reflexivity].
  - destruct (mapM_total pantryEntry (map toIngredient (d :: ds))) as (pantry & H).
    { intros i _. apply pantryEntry_returns. }
    exists pantry. split.
    + apply mapM_Normal_inv in H. clear -H.
      remember (d :: ds) as l eqn:El. clear El. revert pantry H.
      induction l as [|x l IH]; intros pantry H; inversion H; subst; constructor; auto.
    + change (map toIngredient (d :: ds)) with (toIngredient d :: map toIngredient ds) in *.
      cbv beta iota. rewrite H, bind_Normal.
      change (toIngredient d :: map toIngredient ds) with (map toIngredient (d :: ds)).
      rewrite fold_scores, List.length_map.
      unfold meanOf, sumOf. rewrite List.length_map. reflexivity.
Qed.

(** C6. When no detection survives the confidence filter and the
    allow-list filter, the post-processing returns an empty item list and
    an aggregate confidence of 0, and raises no error. This covers the
    empty list and lists whose labels are all off the allow-list. *)
Theorem no_surviving_detection (predictions : list Prediction) :
  (forall p, In p predictions ->
     ge (score p) num_0_4 = false \/
     has allowedVisionLabels (toLowerCase (class p)) = false) ->
  processDetections predictions =
  Normal {| items := []; aggregateConfidence := num_0 |}.
Proof.
  intros H.
  assert (E : survivingDetections predictions = []).
  { unfold survivingDetections. induction predictions as [|p l IH]; [reflexivity|].
    simpl. unfold survives at 1.
    destruct (H p (or_introl eq_refl)) as [-> | ->]; rewrite ?andb_false_r; simpl;
      apply IH; intros q Hq; apply H; right; exact Hq. }
  destruct (processDetections_returns predictions) as (pantry & F & R).
  rewrite E in F, R. inversion F. subst. exact R.
Qed.

Lemma no_surviving_detection_witness :
  processDetections [] = Normal {| items := []; aggregateConfidence := num_0 |} /\
  processDetections [ mkPrediction "chair" (lit "0.93"); mkPrediction "Apple" (lit "0.39");
                      mkPrediction "person" (lit "0.4") ]
  = Normal {| items := []; aggregateConfidence := num_0 |}.
Proof.
  split.
  - apply no_surviving_detection. intros p [].
  - apply no_surviving_detection.
    intros p [<-|[<-|[<-|[]]]]; vm_compute; auto.
Defined.




Section Threshold.

Lemma lt_not_ge (x y : number) : lt x y = true -> ge x y = false.
Proof.
  unfold lt, ge, SFltb, SFleb. rewrite (SFcompare_antisym x y).
  destruct (SFcompare x y) as [[]|]; simpl; congruence.
Qed.

Lemma Forall2_functional {A B} (R : A -> B -> Prop) (l : list A) (a b : list B) :
  (forall x y z, R x y -> R x z -> y = z) ->
  Forall2 R l a -> Forall2 R l b -> a = b.
Proof.
  intros HR Ha. revert b. induction Ha as [|x y l a Hxy _ IH]; intros b Hb.
  - now inversion Hb.
  - inversion Hb as [|x' z l' b' Hxz Hb']; subst. f_equal; [eapply HR; eauto | auto].
Qed.

Lemma survivingDetections_app (a b : list Prediction) :
  survivingDetections (a ++ b)%list = (survivingDetections a ++ survivingDetections b)%list.
Proof. apply List.filter_app. Qed.

Lemma processDetections_survivors (a b : list Prediction) :
  survivingDetections a = survivingDetections b ->
  processDetections a = processDetections b.
Proof.
  intros E. unfold processDetections. now rewrite !survivingIngredients_spec, E.
Qed.

End Threshold.

(** C5. The confidence threshold, for every list of detections. A
    detection whose confidence is exactly 0.4 and whose label is on the
    allow-list is retained wherever it stands: the items are those of the
    detections before it, then its own item (the lower-cased label with
    quantity 0.8), then those of the detections after it. A detection
    whose confidence is strictly below 0.4 is dropped wherever it stands:
    the outcome, items and aggregate confidence, is the outcome of the
    list without it. 0.4 and 0.8 are written out as binary64 values,
    7205759403792794 * 2^-54 and 7205759403792794 * 2^-53. *)
Theorem detection_threshold :
  (forall before p after,
      score p = S754_finite false 7205759403792794 (-54) ->
      has allowedVisionLabels (toLowerCase (class p)) = true ->
      exists r1 r2 result,
        processDetections before = Normal r1 /\
        processDetections after = Normal r2 /\
        processDetections (before ++ p :: after)%list = Normal result /\
        items result =
        (items r1 ++
         {| name := toLowerCase (class p);
            quantity := Some (S754_finite false 7205759403792794 (-53)) |}
         :: items r2)%list) /\
  (forall before p after,
      lt (score p) (S754_finite false 7205759403792794 (-54)) = true ->
      processDetections (before ++ p :: after)%list =
      processDetections (before ++ after)%list) /\
  S754_finite false 7205759403792794 (-54) = Prim2SF 0.4%float /\
  S754_finite false 7205759403792794 (-53) = Prim2SF 0.8%float.
Proof.
  split; [|split; [|vm_compute; auto]].
  - intros before p after Hs Hal.
    destruct (processDetections_returns before) as (p1 & F1 & R1).
    destruct (processDetections_returns after) as (p2 & F2 & R2).
    destruct (processDetections_returns (before ++ p :: after)%list) as (p3 & F3 & R3).
    eexists _, _, _. split; [exact R1|]. split; [exact R2|]. split; [exact R3|].
    simpl items.
    assert (Hp : survives p = true).
    { unfold survives. rewrite Hs, Hal. reflexivity. }
    rewrite survivingDetections_app in F3. simpl in F3.
    change (List.filter survives after) with (survivingDetections after) in F3.
    rewrite Hp in F3.
    eapply Forall2_functional; [| exact F3 |].
    + intros x y z Hy Hz. congruence.
    + apply List.Forall2_app; [exact F1|]. constructor; [|exact F2].
      unfold pantryEntry. simpl ingScore. simpl className. rewrite Hs.
      assert (T : toFixed (mul (S754_finite false 7205759403792794 (-54)) num_2) 2
                  = Normal "0.80") by (vm_compute; reflexivity).
      rewrite T, bind_Normal. reflexivity.
  - intros before p after Hlt. apply processDetections_survivors.
    rewrite !survivingDetections_app. f_equal. simpl.
    unfold survives at 1.
    change num_0_4 with (S754_finite false 7205759403792794 (-54)).
    rewrite (lt_not_ge _ _ Hlt). reflexivity.
Qed.

Lemma detection_threshold_witness :
  (exists r1 r2 result,
      processDetections [ mkPrediction "car" (Prim2SF 0.9%float) ] = Normal r1 /\
      processDetections [ mkPrediction "Lime" (Prim2SF 0.5%float) ] = Normal r2 /\
      processDetections [ mkPrediction "car" (Prim2SF 0.9%float);
                          mkPrediction "Apple" (Prim2SF 0.4%float);
                          mkPrediction "Lime" (Prim2SF 0.5%float) ] = Normal result /\
      items result =
      (items r1 ++
       {| name := "apple"; quantity := Some (S754_finite false 7205759403792794 (-53)) |}
       :: items r2)%list) /\
  processDetections [ mkPrediction "lime" (Prim2SF 0.5%float);
                      mkPrediction "Apple" (Prim2SF 0.39999999999999997%float) ] =
  processDetections [ mkPrediction "lime" (Prim2SF 0.5%float) ].
Proof.
  destruct detection_threshold as (Hkeep & Hdrop & _). split.
  - apply (Hkeep [ mkPrediction "car" (Prim2SF 0.9%float) ]
                 (mkPrediction "Apple" (Prim2SF 0.4%float))
                 [ mkPrediction "Lime" (Prim2SF 0.5%float) ]).
    + vm_compute. reflexivity.
    + vm_compute. reflexivity.
  - apply (Hdrop [ mkPrediction "lime" (Prim2SF 0.5%float) ]
                 (mkPrediction "Apple" (Prim2SF 0.39999999999999997%float)) []).
    vm_compute. reflexivity.
Defined.

(* ===================================================================== *)
(** * Further properties of the component *)
(* ===================================================================== *)

(** ** Manual entry: separators, quantities and names *)

Section EntryLists.

Lemma split_nonempty (sep : ascii -> bool) (s : string) : split sep s <> [].
Proof.
  induction s as [|c r IH]; simpl; [discriminate|].
  destruct (sep c); [discriminate|]. destruct (split sep r); discriminate.
Qed.

Lemma split_app (sep : ascii -> bool) (a b : string) (c : ascii) :
  sep c = true -> split sep (a ++ String c b) = (split sep a ++ split sep b)%list.
Proof.
  intros Hc. induction a as [|x r IH].
  - change (EmptyString ++ String c b) with (String c b). simpl. rewrite Hc. reflexivity.
  - rewrite append_cons. simpl. destruct (sep x).
    + rewrite IH. reflexivity.
    + rewrite IH. destruct (split sep r) as [|p ps] eqn:E.
      * now apply split_nonempty in E.
      * reflexivity.
Qed.

Lemma split_pieces (sep : ascii -> bool) (s seg : string) :
  In seg (split sep s) -> existsChar sep seg = false.
Proof.
  revert seg. induction s as [|c r IH]; simpl; intros seg H.
  - destruct H as [<-|[]]. reflexivity.
  - destruct (sep c) eqn:Hc.
    + destruct H as [<-|H]; [reflexivity | auto].
    + destruct (split sep r) as [|p ps] eqn:E.
      * destruct H as [<-|[]]. simpl. now rewrite Hc.
      * destruct H as [<-|H].
        -- simpl. rewrite Hc. apply IH. now left.
        -- apply IH. now right.
Qed.

Lemma split_all (sep p : ascii -> bool) (s : string) :
  Forall (fun seg => allChars p seg = true) (split sep s) <->
  allChars (fun c => p c || sep c) s = true.
Proof.
  induction s as [|c r IH]; simpl.
  - split; [reflexivity|]. intros _. constructor; [reflexivity | constructor].
  - destruct (sep c) eqn:Hc.
    + rewrite orb_true_r. simpl. rewrite <- IH. split.
      * intros H. now inversion H.
      * intros H. constructor; [reflexivity | exact H].
    + rewrite orb_false_r. destruct (split sep r) as [|x xs] eqn:E.
      * now apply split_nonempty in E.
      * rewrite andb_true_iff, <- IH. split.
        -- intros H. inversion H as [|? ? H1 H2]; subst. simpl in H1.
           apply andb_prop in H1 as [H1 H3]. split; [exact H1|].
           constructor; assumption.
        -- intros [H1 H]. inversion H as [|? ? H2 H3]; subst.
           constructor; [simpl; now rewrite H1, H2 | exact H3].
Qed.

Lemma trimStart_blank (s : string) :
  trimStart s = EmptyString <-> allChars isWhiteSpace s = true.
Proof.
  induction s as [|c r IH]; simpl; [tauto|].
  destruct (isWhiteSpace c); simpl; [exact IH|]. split; discriminate.
Qed.

Lemma trimEnd_head (c : ascii) (r : string) :
  isWhiteSpace c = false -> trimEnd (String c r) <> EmptyString.
Proof. intros H. simpl. rewrite H. discriminate. Qed.

Lemma trim_blank (s : string) :
  trim s = EmptyString <-> allChars isWhiteSpace s = true.
Proof.
  rewrite <- trimStart_blank. unfold trim.
  destruct (trimStart s) as [|c r] eqn:E; [tauto|].
  apply trimStart_head in E. split; [|discriminate].
  intros H. now apply trimEnd_head in H.
Qed.

Lemma filter_nil {A} (p : A -> bool) (l : list A) :
  List.filter p l = [] <-> Forall (fun x => p x = false) l.
Proof.
  induction l as [|x l IH]; simpl.
  - split; [constructor | reflexivity].
  - destruct (p x) eqn:E.
    + split; [discriminate|]. intros H. inversion H; congruence.
    + rewrite IH. split; [now constructor | intros H; now inversion H].
Qed.

Lemma existsChar_trimStart (p : ascii -> bool) (s : string) :
  existsChar p s = false -> existsChar p (trimStart s) = false.
Proof.
  induction s as [|c r IH]; simpl; [reflexivity|].
  intros H. apply orb_false_elim in H as [H1 H2].
  destruct (isWhiteSpace c); [auto|]. simpl. now rewrite H1, H2.
Qed.

Lemma existsChar_trimEnd (p : ascii -> bool) (s : string) :
  existsChar p s = false -> existsChar p (trimEnd s) = false.
Proof.
  induction s as [|c r IH]; simpl; [reflexivity|].
  intros H. apply orb_false_elim in H as [H1 H2].
  destruct (isWhiteSpace c && isEmpty (trimEnd r)); [reflexivity|].
  simpl. rewrite H1. auto.
Qed.

Lemma existsChar_trim (p : ascii -> bool) (s : string) :
  existsChar p s = false -> existsChar p (trim s) = false.
Proof. intros H. unfold trim. now apply existsChar_trimEnd, existsChar_trimStart. Qed.

Lemma blank_entries (input : string) :
  allChars (fun c => isWhiteSpace c || isEntrySeparator c) input = true ->
  parseManualEntry input = [].
Proof.
  intros H. apply split_all in H. unfold parseManualEntry.
  replace (List.filter _ _) with (@nil string); [reflexivity|].
  symmetry. apply filter_nil. rewrite List.Forall_forall in *.
  intros e He. apply in_map_iff in He as (seg & <- & Hseg).
  apply H, trim_blank in Hseg. now rewrite Hseg.
Qed.

End EntryLists.

(** [parseManualEntry] gives no item exactly when the text holds nothing
    but whitespace, commas and line feeds. *)
Theorem parse_blank (input : string) :
  parseManualEntry input = [] <->
  allChars (fun c => isWhiteSpace c || isEntrySeparator c) input = true.
Proof.
  split; [|apply blank_entries].
  unfold parseManualEntry. intros H. apply split_all.
  apply map_eq_nil in H. apply filter_nil in H.
  rewrite List.Forall_forall in *. intros seg Hseg.
  apply trim_blank. specialize (H (trim seg) (in_map _ _ _ Hseg)).
  simpl in H. destruct (trim seg); [reflexivity | discriminate].
Qed.

(** A comma or a line feed cuts the text in two parts that are parsed
    independently: the items of the whole are those of the part before
    the separator followed by those of the part after it. *)
Theorem parse_separator (a b : string) (c : ascii) :
  isEntrySeparator c = true ->
  parseManualEntry (a ++ String c b) = (parseManualEntry a ++ parseManualEntry b)%list.
Proof.
  intros Hc. unfold parseManualEntry.
  rewrite (split_app _ _ _ _ Hc), List.map_app, List.filter_app, List.map_app. reflexivity.
Qed.

Lemma parse_separator_witness :
  parseManualEntry ("2 eggs" ++ String "," " milk") =
  (parseManualEntry "2 eggs" ++ parseManualEntry " milk")%list.
Proof. apply (parse_separator "2 eggs" " milk" ","). reflexivity. Defined.

Section EntryShape.

Lemma append_same_tail (m n t : string) : m ++ t = n ++ t -> m = n.
Proof.
  intros H. apply (append_inj_length m n t t H).
  assert (L : String.length (m ++ t) = String.length (n ++ t)) by now rewrite H.
  rewrite !length_append in L. lia.
Qed.

(** The full shape of a match of the entry pattern. *)
Lemma entry_shape (e : string) (m : mstate) :
  exec entryPattern e = Some m ->
  exists ip fr w1 u c w nm,
    e = (ip ++ fr) ++ w1 ++ u ++ String c w ++ nm /\
    allChars isDigit ip = true /\ ip <> EmptyString /\
    (fr = EmptyString \/
     exists fp, fr = String "." fp /\ allChars isDigit fp = true /\ fp <> EmptyString) /\
    allChars isWordChar u = true /\
    group 1 (caps m) = Some (ip ++ fr) /\
    group 2 (caps m) = (if isEmpty u then None else Some u) /\
    group 3 (caps m) = Some nm /\
    allChars isWhiteSpace w1 = true /\ isWhiteSpace c = true /\
    allChars isWhiteSpace w = true.
Proof.
  intros H. apply exec_anchored in H. fold entryPattern in H.
  unfold entryPattern in H.
  apply run_Seq in H as (s1 & H1 & H). apply run_Bol in H1 as [-> _].
  apply run_Seq in H as (s2 & H2 & H).
  apply run_Seq in H as (s3 & H3 & H).
  apply run_Seq in H as (s4 & H4 & H).
  apply run_Seq in H as (s5 & H5 & H).
  apply run_Seq in H as (s6 & H6 & H).
  apply run_Eol in H as [-> Hend].
  (* group 1 *)
  apply run_Group in H2 as (m1 & qty & Hm1 & C2 & R2 & K2).
  assert (K1 : caps m1 = []) by (eapply run_noGroup in Hm1; [exact Hm1 | reflexivity]).
  rewrite K1 in K2.
  assert (Hq : exists ip fr, qty = ip ++ fr /\ allChars isDigit ip = true /\
             ip <> EmptyString /\
             (fr = EmptyString \/
              exists fp, fr = String "." fp /\ allChars isDigit fp = true /\
                         fp <> EmptyString)).
  { apply run_Seq in Hm1 as (mi & Hi & Hf).
    apply run_Plus in Hi as (d & ip' & Ci & Hd & Hip & _).
    apply run_Opt in Hf as [Hf| ->].
    - apply run_Seq in Hf as (mp & Hp & Hf).
      apply run_Class in Hp as (pt & Cp & Hpt & _).
      apply run_Plus in Hf as (d2 & fp' & Cf & Hd2 & Hfp & _).
      unfold isChar in Hpt. apply Ascii.eqb_eq in Hpt. subst pt.
      exists (String d ip'), (String "." (String d2 fp')).
      pose proof (consumed_trans _ _ _ _ _ Ci (consumed_trans _ _ _ _ _ Cp Cf)) as [E _].
      destruct C2 as [E2 _]. rewrite R2 in E2. rewrite E2 in E.
      apply append_same_tail in E. split; [exact E|].
      split; [simpl; now rewrite Hd, Hip|]. split; [discriminate|].
      right. exists (String d2 fp'). split; [reflexivity|].
      split; [simpl; now rewrite Hd2, Hfp | discriminate].
    - exists (String d ip'), EmptyString.
      destruct Ci as [E _]. destruct C2 as [E2 _]. rewrite R2 in E2. rewrite E2 in E.
      apply append_same_tail in E. rewrite append_empty_r.
      split; [exact E|]. split; [simpl; now rewrite Hd, Hip|].
      split; [discriminate | now left]. }
  destruct Hq as (ip & fr & -> & Hip & Hne & Hfr).
  (* whitespace after the number *)
  apply run_Star in H3 as (w1 & C3 & Hw1 & K3).
  (* the separating whitespace *)
  apply run_Plus in H5 as (c & w & C5 & Hc & Hw & K5).
  (* group 3 *)
  apply run_Group in H6 as (m3 & nm & Hm3 & C6 & R6 & K6).
  apply run_Star in Hm3 as (nm' & _ & _ & K3').
  assert (Hnm : rest s5 = nm).
  { destruct C6 as [E _]. rewrite E, Hend. apply append_empty_r. }
  (* group 2 *)
  apply run_Opt in H4 as [H4| ->].
  - apply run_Group in H4 as (m2 & u & Hm2 & C4 & R4 & K4).
    apply run_Plus in Hm2 as (d & u' & C4' & Hd & Hu' & K4').
    assert (Hu : u = String d u').
    { destruct C4 as [E P], C4' as [E' P']. rewrite <- R4 in E'.
      rewrite E in E'. now apply append_same_tail in E'. }
    subst u.
    pose proof (consumed_trans _ _ _ _ _ C2 (consumed_trans _ _ _ _ _ C3 C4)) as [E _].
    exists ip, fr, w1, (String d u'), c, w, nm. simpl in E.
    destruct C5 as [E5 _]. rewrite E5, Hnm in E.
    rewrite !append_assoc in E. rewrite !append_assoc.
    split; [exact E|]. repeat split; auto.
    + simpl. now rewrite Hd, Hu'.
    + rewrite K6, K3', K5, K4, K4', K3, K2. reflexivity.
    + rewrite K6, K3', K5, K4. reflexivity.
    + rewrite K6. reflexivity.
  - pose proof (consumed_trans _ _ _ _ _ C2 C3) as [E _].
    exists ip, fr, w1, EmptyString, c, w, nm. simpl in E.
    destruct C5 as [E5 _]. rewrite E5, Hnm in E.
    rewrite !append_assoc in E. rewrite !append_assoc.
    split; [exact E|]. repeat split; auto.
    + rewrite K6, K3', K5, K3, K2. reflexivity.
    + rewrite K6, K3', K5, K3, K2. reflexivity.
    + rewrite K6. reflexivity.
Qed.

(** An entry that does not begin with a digit does not match. *)
Lemma entry_no_digit (e : string) :
  match e with String c _ => isDigit c | EmptyString => false end = false ->
  exec entryPattern e = None.
Proof.
  intros H. apply exec_none. fold entryPattern.
  destruct (run entryPattern (MState 0 e [])) as [|m l] eqn:E; [reflexivity|].
  assert (Hm : exec entryPattern e = Some m).
  { unfold exec. rewrite execFrom_unfold, E. reflexivity. }
  destruct (entry_shape _ _ Hm) as (ip & fr & w1 & u & c & w & nm & He & Hip & Hne & _).
  destruct ip as [|d ip']; [congruence|].
  rewrite He in H. rewrite !append_cons in H. simpl in Hip.
  apply andb_prop in Hip as [Hd _]. congruence.
Qed.

End EntryShape.

Section ParsedNumbers.
Local Open Scope Z_scope.

Lemma binary_round_aux_sign (s : bool) (m e : Z) (l : location) :
  0 <= m -> e <= fexp prec emax (Zdigits2 m + e) ->
  binary_round_aux prec emax s m e l = S754_zero s \/
  isPositive s (binary_round_aux prec emax s m e l).
Proof.
  intros Hm He. unfold binary_round_aux.
  pose proof (shr_fexp_canonical m e l Hm He) as (E1 & N1 & C1 & Z1).
  destruct (shr_fexp prec emax m e l) as [mrs e1]. simpl in E1, N1, C1, Z1.
  set (m2 := round_nearest_even (shr_m mrs) (loc_of_shr_record mrs)).
  assert (H2 : shr_m mrs <= m2 <= shr_m mrs + 1).
  { unfold m2. destruct (loc_of_shr_record mrs) as [|[]]; simpl; try lia.
    destruct (Z.even (shr_m mrs)); lia. }
  assert (He1 : e1 <= fexp prec emax (Zdigits2 m2 + e1)).
  { destruct (Z.eq_dec (shr_m mrs) 0) as [Hz|Hnz].
    - rewrite (Z1 Hz), fexp_eq. lia.
    - assert (Hpos : 0 < shr_m mrs) by lia.
      pose proof (Zdigits2_mono (shr_m mrs) m2 Hpos ltac:(lia)).
      specialize (C1 Hpos). rewrite fexp_eq in *. lia. }
  pose proof (shr_fexp_canonical m2 e1 loc_Exact ltac:(lia) He1) as (E2 & N2 & C2 & _).
  destruct (shr_fexp prec emax m2 e1 loc_Exact) as [mrs2 e2]. simpl in E2, N2, C2.
  destruct (shr_m mrs2) as [|p|p] eqn:Ep; [now left | | lia].
  right. destruct (e2 <=? emax - prec); [left; eauto | right; reflexivity].
Qed.

Lemma roundRatio_sign (s : bool) (p q : positive) :
  roundRatio s p q = S754_zero s \/ isPositive s (roundRatio s p q).
Proof.
  unfold roundRatio.
  pose proof (SFdiv_core_precise p q 0 0) as [H1 H2].
  destruct (SFdiv_core_binary prec emax (Zpos p) 0 (Zpos q) 0) as [[m e] l].
  simpl in H1, H2. now apply binary_round_aux_sign.
Qed.

Lemma decimalValue_sign (s : bool) (n k : Z) :
  decimalValue s n k = S754_zero s \/ isPositive s (decimalValue s n k).
Proof.
  unfold decimalValue. destruct n; [now left | | now left].
  destruct (0 <=? k); apply roundRatio_sign.
Qed.

Lemma decimalValue_valid (s : bool) (n k : Z) : isValid (decimalValue s n k) = true.
Proof.
  unfold decimalValue. destruct n; try reflexivity.
  destruct (0 <=? k); apply roundRatio_valid.
Qed.

Lemma nonneg_ge_zero (x : number) :
  x = S754_zero false \/ isPositive false x -> ge x num_0 = true.
Proof.
  intros [->|[(m & e & ->)| ->]]; reflexivity.
Qed.

Lemma parseFloat_digits (ip : string) :
  allChars isDigit ip = true -> ip <> EmptyString ->
  parseFloat ip = decimalValue false (digitsValue ip) 0.
Proof.
  intros Hi Hne. destruct ip as [|c ip']; [congruence|].
  pose proof Hi as Hi'. simpl in Hi'. apply andb_prop in Hi' as [Hc _].
  unfold parseFloat. simpl trimStart. rewrite (digit_not_space c Hc).
  rewrite (digit_not_char "-" c eq_refl Hc), (digit_not_char "+" c eq_refl Hc).
  unfold parseUnsigned. cbn [startsWith].
  change (Ascii.eqb "I" c) with (isChar "I" c).
  rewrite (digit_not_char "I" c eq_refl Hc).
  pose proof (span_app isDigit (String c ip') EmptyString Hi I) as Hs.
  rewrite append_empty_r in Hs. rewrite Hs.
  simpl isEmpty. cbv iota. simpl parseExponent.
  rewrite append_empty_r. reflexivity.
Qed.

(** The quantity text of a match reads as a Number that is zero or above. *)
Lemma parseFloat_quantity (ip fr : string) :
  allChars isDigit ip = true -> ip <> EmptyString ->
  (fr = EmptyString \/
   exists fp, fr = String "." fp /\ allChars isDigit fp = true /\ fp <> EmptyString) ->
  exists n k, parseFloat (ip ++ fr) = decimalValue false n k.
Proof.
  intros Hi Hne [->|(fp & -> & Hf & _)].
  - rewrite append_empty_r. eexists _, _. now apply parseFloat_digits.
  - eexists _, _. exact (parseFloat_fixed false ip fp Hi Hne Hf).
Qed.

End ParsedNumbers.

(** A quantity that [parseManualEntry] sets is never NaN and never below
    zero: it is a canonical Number that is [+0], positive or [+Infinity]. *)
Theorem parse_quantity_nonnegative (input : string) (item : PantryItem) (q : number) :
  In item (parseManualEntry input) -> quantity item = Some q ->
  isValid q = true /\ ge q num_0 = true /\ nonNegative q.
Proof.
  unfold parseManualEntry. intros H Hq.
  apply in_map_iff in H as (e & <- & _).
  unfold parseEntry in Hq.
  destruct (exec entryPattern e) as [m|] eqn:E; [|discriminate].
  destruct (entry_shape _ _ E) as (ip & fr & w1 & u & c & w & nm & _ & Hip & Hne & Hfr & _ & G1 & _).
  rewrite G1 in Hq. simpl in Hq. injection Hq as <-.
  destruct (parseFloat_quantity ip fr Hip Hne Hfr) as (n & k & ->).
  split; [apply decimalValue_valid|].
  split; [apply nonneg_ge_zero|]; apply decimalValue_sign.
Qed.

Lemma parse_quantity_nonnegative_witness :
  isValid (lit "2.5") = true /\ ge (lit "2.5") num_0 = true /\ nonNegative (lit "2.5").
Proof.
  apply (parse_quantity_nonnegative "2.5 kg flour" (mkPantryItem "kg flour" (Some (lit "2.5")))).
  - vm_compute. left. reflexivity.
  - reflexivity.
Defined.

Section LeadingDigit.

Lemma Forall2_map_r {A B} (R : A -> B -> Prop) (f : A -> B) (l : list A) :
  (forall x, In x l -> R x (f x)) -> Forall2 R l (map f l).
Proof.
  induction l as [|x l IH]; intros H; simpl; constructor.
  - apply H. now left.
  - apply IH. intros y Hy. apply H. now right.
Qed.

End LeadingDigit.

(** The items stand one for one, in order, for the segments that are not
    blank. An item whose segment, once trimmed, does not begin with a
    digit is that trimmed segment as a name, without quantity; so an item
    with a quantity comes from a segment that begins with a digit. *)
Theorem parse_quantity_leading_digit (input : string) :
  Forall2 (fun seg item =>
             (startsWithDigit (trim seg) = false ->
              item = {| name := trim seg; quantity := None |}) /\
             (quantity item <> None -> startsWithDigit (trim seg) = true))
          (List.filter (fun seg => negb (isEmpty (trim seg))) (segments input))
          (parseManualEntry input).
Proof.
  unfold parseManualEntry, segments.
  rewrite filter_map_swap, List.map_map.
  apply Forall2_map_r. intros seg _.
  assert (H : startsWithDigit (trim seg) = false ->
              parseEntry (trim seg) = {| name := trim seg; quantity := None |}).
  { intros Hd. unfold parseEntry. now rewrite (entry_no_digit _ Hd). }
  split; [exact H|].
  intros Hq. destruct (startsWithDigit (trim seg)) eqn:Hd; [reflexivity|].
  rewrite (H eq_refl) in Hq. now destruct Hq.
Qed.

(** The name of a parsed item holds neither a comma nor a line feed. *)
Theorem parse_names_without_separator (input : string) (item : PantryItem) :
  In item (parseManualEntry input) ->
  existsChar isEntrySeparator (name item) = false.
Proof.
  unfold parseManualEntry. intros H.
  apply in_map_iff in H as (e & <- & H).
  apply filter_In in H as [H _].
  apply in_map_iff in H as (seg & <- & Hseg).
  apply split_pieces in Hseg. apply existsChar_trim in Hseg.
  unfold parseEntry.
  destruct (exec entryPattern (trim seg)) as [m|] eqn:E; [|exact Hseg].
  destruct (entry_shape _ _ E)
    as (ip & fr & w1 & u & c & w & nm & He & _ & _ & _ & _ & _ & G2 & G3 & _).
  rewrite G2, G3. simpl.
  rewrite He in Hseg.
  rewrite existsChar_app in Hseg. apply orb_false_elim in Hseg as [_ Hseg].
  rewrite existsChar_app in Hseg. apply orb_false_elim in Hseg as [_ Hseg].
  rewrite existsChar_app in Hseg. apply orb_false_elim in Hseg as [Hu Hseg].
  rewrite existsChar_app in Hseg. apply orb_false_elim in Hseg as [_ Hnm].
  apply existsChar_trim.
  destruct u as [|d u']; simpl; [exact Hnm|].
  rewrite append_cons. simpl in Hu. simpl.
  apply orb_false_elim in Hu as [Hd Hu'].
  rewrite existsChar_app. simpl. change ("" ++ nm) with nm.
  now rewrite Hd, Hu', Hnm.
Qed.

Lemma parse_names_without_separator_witness :
  existsChar isEntrySeparator "cups spinach" = false.
Proof.
  apply (parse_names_without_separator "2 cups spinach, 1 lime"
           (mkPantryItem "cups spinach" (Some num_2))).
  vm_compute. left. reflexivity.
Defined.

Section KeptCharacters.

Lemma withoutWhiteSpace_app (a b : string) :
  withoutWhiteSpace (a ++ b) = withoutWhiteSpace a ++ withoutWhiteSpace b.
Proof.
  induction a as [|c r IH]; [reflexivity|].
  rewrite append_cons. simpl. rewrite IH. now destruct (isWhiteSpace c).
Qed.

Lemma withoutWhiteSpace_blank (w : string) :
  allChars isWhiteSpace w = true -> withoutWhiteSpace w = EmptyString.
Proof.
  induction w as [|c r IH]; simpl; [reflexivity|].
  intros H. apply andb_prop in H as [-> H]. auto.
Qed.

Lemma withoutWhiteSpace_fixed (p : ascii -> bool) (s : string) :
  (forall c, p c = true -> isWhiteSpace c = false) ->
  allChars p s = true -> withoutWhiteSpace s = s.
Proof.
  intros Hp. induction s as [|c r IH]; simpl; [reflexivity|].
  intros H. apply andb_prop in H as [Hc H]. rewrite (Hp c Hc). f_equal. auto.
Qed.

Lemma withoutWhiteSpace_trimStart (s : string) :
  withoutWhiteSpace (trimStart s) = withoutWhiteSpace s.
Proof.
  induction s as [|c r IH]; simpl; [reflexivity|].
  destruct (isWhiteSpace c) eqn:E; [exact IH|]. simpl. now rewrite E.
Qed.

Lemma withoutWhiteSpace_trimEnd (s : string) :
  withoutWhiteSpace (trimEnd s) = withoutWhiteSpace s.
Proof.
  induction s as [|c r IH]; simpl; [reflexivity|].
  destruct (isWhiteSpace c) eqn:E; simpl.
  - destruct (trimEnd r) as [|d t] eqn:Et; simpl in *; [exact IH|].
    rewrite E. exact IH.
  - rewrite E. f_equal. exact IH.
Qed.

Lemma withoutWhiteSpace_trim (s : string) :
  withoutWhiteSpace (trim s) = withoutWhiteSpace s.
Proof.
  unfold trim. now rewrite withoutWhiteSpace_trimEnd, withoutWhiteSpace_trimStart.
Qed.

Lemma quantity_text (ip fr : string) :
  allChars isDigit ip = true -> ip <> EmptyString ->
  (fr = EmptyString \/
   exists fp, fr = String "." fp /\ allChars isDigit fp = true /\ fp <> EmptyString) ->
  isBareNumber (ip ++ fr) = true /\ withoutWhiteSpace (ip ++ fr) = ip ++ fr.
Proof.
  intros Hi Hne Hfr.
  assert (Hw : withoutWhiteSpace ip = ip)
    by exact (withoutWhiteSpace_fixed _ _ digit_not_space Hi).
  unfold isBareNumber. destruct Hfr as [->|(fp & -> & Hf & Hnf)].
  - rewrite (span_app isDigit ip EmptyString Hi I), append_empty_r.
    split; [|exact Hw]. destruct ip; [congruence | reflexivity].
  - rewrite (span_app isDigit ip (String "." fp) Hi eq_refl).
    split.
    + destruct ip; [congruence|]. destruct fp; [congruence|].
      simpl in Hf. simpl. now rewrite Hf.
    + rewrite withoutWhiteSpace_app, Hw. f_equal. simpl. f_equal.
      exact (withoutWhiteSpace_fixed _ _ digit_not_space Hf).
Qed.

End KeptCharacters.

(** The parser loses no character: when an item has a quantity, the
    quantity is what [parseFloat] reads from a bare number [qty], and the
    segment without its whitespace is [qty] followed by the name without
    its whitespace. *)
Theorem parse_keeps_characters (input : string) (item : PantryItem) (q : number) :
  In item (parseManualEntry input) -> quantity item = Some q ->
  exists seg qty,
    In seg (segments input) /\
    isBareNumber qty = true /\ q = parseFloat qty /\
    withoutWhiteSpace seg = qty ++ withoutWhiteSpace (name item).
Proof.
  unfold parseManualEntry. intros H Hq.
  apply in_map_iff in H as (e & <- & H).
  apply filter_In in H as [H _].
  apply in_map_iff in H as (seg & <- & Hseg).
  unfold parseEntry in *.
  destruct (exec entryPattern (trim seg)) as [m|] eqn:E; [|discriminate].
  destruct (entry_shape _ _ E)
    as (ip & fr & w1 & u & c & w & nm & He & Hip & Hne & Hfr & Hu & G1 & G2 & G3
        & Hw1 & Hc & Hw).
  destruct (quantity_text ip fr Hip Hne Hfr) as [Hb Hq'].
  rewrite G1 in Hq. simpl in Hq. injection Hq as <-.
  exists seg, (ip ++ fr). split; [exact Hseg|]. split; [exact Hb|]. split; [reflexivity|].
  rewrite <- (withoutWhiteSpace_trim seg), He.
  rewrite G2, G3. simpl name. rewrite withoutWhiteSpace_trim.
  rewrite withoutWhiteSpace_app, Hq'. f_equal.
  rewrite withoutWhiteSpace_app, (withoutWhiteSpace_blank w1 Hw1).
  rewrite withoutWhiteSpace_app, (withoutWhiteSpace_fixed _ _ word_not_space Hu).
  rewrite withoutWhiteSpace_app.
  assert (Hcw : withoutWhiteSpace (String c w) = EmptyString).
  { simpl. rewrite Hc. now apply withoutWhiteSpace_blank. }
  rewrite Hcw. change (EmptyString ++ withoutWhiteSpace nm) with (withoutWhiteSpace nm).
  change (EmptyString ++ u ++ withoutWhiteSpace nm) with (u ++ withoutWhiteSpace nm).
  destruct u as [|d u']; simpl default; cbv iota beta.
  - reflexivity.
  - cbv beta iota delta [isEmpty].
    rewrite withoutWhiteSpace_app, (withoutWhiteSpace_fixed _ _ word_not_space Hu).
    f_equal.
Qed.

Lemma parse_keeps_characters_witness :
  exists seg qty,
    In seg (segments "milk, 2.5  kg   flour ") /\
    isBareNumber qty = true /\ lit "2.5" = parseFloat qty /\
    withoutWhiteSpace seg = qty ++ withoutWhiteSpace "kg flour".
Proof.
  apply (parse_keeps_characters "milk, 2.5  kg   flour "
           (mkPantryItem "kg flour" (Some (lit "2.5"))) (lit "2.5")).
  - vm_compute. right. left. reflexivity.
  - reflexivity.
Defined.

(** ** The pantry list and the manual entry field *)

Section PantryFacts.


Lemma name_eqb_neq (a b : string) : negb (String.eqb a b) = true <-> a <> b.
Proof.
  destruct (String.eqb_spec a b) as [->|N]; simpl; split; auto; congruence.
Qed.

End PantryFacts.

(** [removePantryItem]: no item of the given name is left, the items of
    other names are kept, and the list is unchanged exactly when no item
    had that name. *)
Theorem remove_pantry_item (target : string) (pantry : list PantryItem) :
  ~ In target (map name (removePantryItem target pantry)) /\
  (forall item, name item <> target ->
     (In item (removePantryItem target pantry) <-> In item pantry)) /\
  (removePantryItem target pantry = pantry <-> ~ In target (map name pantry)).
Proof.
  unfold removePantryItem. split; [|split].
  - intros H. apply in_map_iff in H as (item & E & H).
    apply filter_In in H as [_ H]. apply name_eqb_neq in H. congruence.
  - intros item Hn. rewrite filter_In, name_eqb_neq. tauto.
  - induction pantry as [|x l [IH1 IH2]]; simpl; [tauto|].
    destruct (String.eqb_spec (name x) target) as [E|N]; simpl.
    + split; [|tauto]. intros H.
      assert (L : List.length (List.filter (fun item => negb (String.eqb (name item) target)) l)
                  = S (List.length l)) by now rewrite H.
      pose proof (List.filter_length_le (fun item => negb (String.eqb (name item) target)) l).
      lia.
    + split.
      * intros H. injection H as H. intros [?|?]; [congruence | now apply IH1].
      * intros H. f_equal. apply IH2. tauto.
Qed.

(** [updatePantryQuantity] leaves the names and their order as they are,
    gives every item of the given name the new quantity (unset when it
    is [undefined]) and does not touch the items of other names. *)
Theorem update_pantry_quantity (target : string) (q : option number)
  (pantry : list PantryItem) :
  map name (updatePantryQuantity target q pantry) = map name pantry /\
  (forall item, In item (updatePantryQuantity target q pantry) ->
     name item = target -> quantity item = q) /\
  (forall item, name item <> target ->
     (In item (updatePantryQuantity target q pantry) <-> In item pantry)).
Proof.
  unfold updatePantryQuantity. split; [|split].
  - rewrite List.map_map. apply map_ext. intros item.
    now destruct (String.eqb (name item) target).
  - intros item H E. apply in_map_iff in H as (x & <- & _).
    destruct (String.eqb_spec (name x) target) as [_|N]; [reflexivity|].
    simpl in E. congruence.
  - intros item N. rewrite in_map_iff. split.
    + intros (x & <- & H).
      destruct (String.eqb_spec (name x) target) as [E|_]; [|exact H].
      simpl in N. congruence.
    + intros H. exists item. split; [|exact H].
      destruct (String.eqb_spec (name item) target); [congruence | reflexivity].
Qed.

(** Of two quantity updates of the same name the later one decides, and
    an update followed by the removal of that name is the removal. *)
Theorem update_last_wins (target : string) (q1 q2 : option number)
  (pantry : list PantryItem) :
  updatePantryQuantity target q2 (updatePantryQuantity target q1 pantry)
  = updatePantryQuantity target q2 pantry /\
  removePantryItem target (updatePantryQuantity target q1 pantry)
  = removePantryItem target pantry.
Proof.
  unfold updatePantryQuantity, removePantryItem. split.
  - rewrite List.map_map. apply map_ext. intros item.
    destruct (String.eqb (name item) target) eqn:E; simpl; now rewrite E.
  - induction pantry as [|x l IH]; [reflexivity|]. simpl.
    destruct (String.eqb (name x) target) eqn:E; simpl; rewrite E; simpl; now rewrite IH.
Qed.

(** Submitting an entry field that holds only whitespace, commas and line
    feeds leaves the pantry as it is, whatever [mergePantryItems] does,
    and empties the field. *)
Theorem submit_blank_entry (mergePantryItems : list PantryItem -> list PantryItem)
  (st : State) :
  allChars (fun c => isWhiteSpace c || isEntrySeparator c) (manualEntry st) = true ->
  pantryItems (handleManualSubmit mergePantryItems st) = pantryItems st /\
  manualEntry (handleManualSubmit mergePantryItems st) = EmptyString.
Proof.
  intros H. unfold handleManualSubmit. rewrite (blank_entries _ H). simpl. auto.
Qed.

Lemma submit_blank_entry_witness :
  pantryItems (handleManualSubmit (@rev PantryItem)
                 (mkState [mkPantryItem "egg" None; mkPantryItem "milk" None] " ,  , "
                    None false None num_0))
  = [mkPantryItem "egg" None; mkPantryItem "milk" None] /\
  manualEntry (handleManualSubmit (@rev PantryItem)
                 (mkState [mkPantryItem "egg" None; mkPantryItem "milk" None] " ,  , "
                    None false None num_0)) = EmptyString.
Proof.
  apply (submit_blank_entry (@rev PantryItem)
           (mkState [mkPantryItem "egg" None; mkPantryItem "milk" None] " ,  , "
              None false None num_0)).
  reflexivity.
Defined.

(** ** The scaled ingredient list *)

Section ScalerFacts.

Lemma mapM_pure {A B} (f : A -> completion B) (g : A -> B) (l : list A) :
  (forall a, In a l -> f a = Normal (g a)) -> mapM f l = Normal (map g l).
Proof.
  intros H. apply mapM_Normal_intro.
  induction l as [|a l IH]; simpl; constructor.
  - apply H. now left.
  - apply IH. intros b Hb. apply H. now right.
Qed.

Lemma ingredientLine_fields (recipe : Recipe) (servings : number)
  (i : RecipeIngredient) (line : IngredientLine) :
  ingredientLine recipe servings i = Normal line ->
  lineName line = ingredientName i /\ lineUnit line = unit i.
Proof.
  unfold ingredientLine.
  destruct (formatQuantity_returns
              (mul (ingredientQuantity i) (multiplier recipe servings))) as (q & ->).
  rewrite bind_Normal. intros H. injection H as <-. auto.
Qed.

End ScalerFacts.

(** The scaled list has one line per ingredient of the recipe, in the
    order of the recipe, each line for the name and the unit of its
    ingredient: scaling touches the quantities only. *)
Theorem scaler_keeps_names_and_units (recipe : Recipe) (servings : number) :
  exists lines,
    adjustedIngredients recipe servings = Normal lines /\
    map lineName lines = map ingredientName (ingredients recipe) /\
    map lineUnit lines = map unit (ingredients recipe).
Proof.
  destruct (scaler_returns recipe servings) as (lines & E).
  exists lines. split; [exact E|].
  unfold adjustedIngredients in E. apply mapM_Normal_inv in E.
  induction E as [|i line l lines H _ IH]; [auto|].
  apply ingredientLine_fields in H as [H1 H2]. destruct IH as [IH1 IH2].
  simpl. now rewrite H1, H2, IH1, IH2.
Qed.

(** A recipe whose [baseServings] is zero is not guarded against: at the
    initial servings (the base servings) the multiplier is 0 / 0 and
    every line shows NaN, without an exception. *)
Theorem scaler_zero_base_servings (recipe : Recipe) (s : bool) :
  baseServings recipe = S754_zero s ->
  adjustedIngredients recipe (baseServings recipe) =
  Normal (map (fun i => mkIngredientLine (ingredientName i) S754_nan (unit i))
              (ingredients recipe)).
Proof.
  intros H. unfold adjustedIngredients. apply mapM_pure. intros i _.
  unfold ingredientLine, multiplier. rewrite H.
  replace (mul (ingredientQuantity i) (div (S754_zero s) (S754_zero s))) with S754_nan.
  - reflexivity.
  - destruct (ingredientQuantity i) as [?|?| |? ? ?]; reflexivity.
Qed.

Lemma scaler_zero_base_servings_witness :
  adjustedIngredients (mkRecipe "tea" "Tea" "Any" "A pot of tea" [] num_0
                         [mkRecipeIngredient "water" num_1 "l"] [])
                      num_0 =
  Normal [mkIngredientLine "water" S754_nan "l"].
Proof.
  apply (scaler_zero_base_servings
           (mkRecipe "tea" "Tea" "Any" "A pot of tea" [] num_0
              [mkRecipeIngredient "water" num_1 "l"] []) false).
  reflexivity.
Defined.

(** ** Detections *)

Section VisionFacts.

Lemma survivingDetections_idem (predictions : list Prediction) :
  survivingDetections (survivingDetections predictions) = survivingDetections predictions.
Proof.
  unfold survivingDetections. rewrite filter_filter.
  apply filter_ext. intros p. now destruct (survives p).
Qed.

End VisionFacts.

(** The detections that do not survive have no influence: the outcome
    for a list of predictions is the outcome for its surviving ones. *)
Theorem detections_only_survivors (predictions : list Prediction) :
  processDetections (survivingDetections predictions) = processDetections predictions.
Proof.
  unfold processDetections.
  now rewrite !survivingIngredients_spec, survivingDetections_idem.
Qed.

(** The post-processing always returns; it emits one item per surviving
    detection, every emitted name is on the allow-list and every emitted
    item has its quantity set. *)
Theorem detected_items_allowed (predictions : list Prediction) :
  exists result,
    processDetections predictions = Normal result /\
    List.length (items result) = List.length (survivingDetections predictions) /\
    Forall (fun item => has allowedVisionLabels (name item) = true /\
                        quantity item <> None) (items result).
Proof.
  destruct (processDetections_returns predictions) as (pantry & F & R).
  eexists. split; [exact R|]. simpl. split.
  - symmetry. eapply Forall2_length. exact F.
  - apply List.Forall_forall. intros item Hin.
    destruct (Forall2_In_r _ _ _ _ F Hin) as (d & Hd & Hitem).
    apply filter_In in Hd as [_ Hs]. unfold survives in Hs.
    apply andb_prop in Hs as [_ Hs].
    unfold pantryEntry in Hitem. simpl ingScore in Hitem. simpl className in Hitem.
    destruct (toFixed_two (mul (score d) num_2)) as (txt & E).
    rewrite E, bind_Normal in Hitem. injection Hitem as <-. simpl.
    split; [exact Hs | discriminate].
Qed.

Section ProxyQuantity.
Local Open Scope Z_scope.


Lemma hundredths_80_200 (n : Z) :
  80 <= n <= 200 -> hundredthsInRange (lit "0.8") num_2 n = true.
Proof.
  intros H.
  assert (A : forallb (fun k => hundredthsInRange (lit "0.8") num_2 (Z.of_nat k))
                (seq 80 121) = true) by (vm_compute; reflexivity).
  rewrite forallb_forall in A.
  rewrite <- (Z2Nat.id n) by lia. apply A. apply in_seq. lia.
Qed.

(** Twice a confidence between 0.4 and 1, rounded to hundredths. *)
Lemma double_confidence_value (m : positive) (e : Z) :
  bounded prec emax m e = true ->
  ge (S754_finite false m e) num_0_4 = true ->
  ge num_1 (S754_finite false m e) = true ->
  mul (S754_finite false m e) num_2 = S754_finite false m (e + 1) /\
  atLeast1e21 m (e + 1) = false /\
  80 <= roundScaled m (e + 1) 2 <= 200.
Proof.
  intros Hb Hlo Hhi.
  destruct (bounded_facts _ _ Hb) as (_ & _ & Hn).
  pose proof (digits2_bounds m) as [Lo Hi].
  unfold ge, SFleb, num_0_4, num_1 in Hlo, Hhi.
  rewrite SFcompare_finite_pos in Hlo, Hhi.
  assert (He : -54 <= e <= -52).
  { destruct (Z.compare_spec (-54) e), (Z.compare_spec e (-52)); try discriminate; lia. }
  assert (Hd : Zpos (digits2_pos m) = 53) by lia.
  rewrite Hd in Lo, Hi.
  change (2 ^ (53 - 1)) with 4503599627370496 in Lo.
  change (2 ^ 53) with 9007199254740992 in Hi.
  split; [|split].
  - change num_2 with (S754_finite false 4503599627370496 (1 - 52)).
    rewrite mul_pow2; [reflexivity | rewrite Hd, fexp_eq; lia | lia].
  - apply below_limit_digits; lia.
  - unfold roundScaled. change (10 ^ Z.of_nat 2) with 100.
    destruct (Z.leb_spec 0 (e + 1)) as [|_]; [lia|].
    assert (Hc : e = -54 \/ e = -53 \/ e = -52) by lia.
    destruct Hc as [->|[->| ->]].
    + change (2 ^ (- (-54 + 1))) with 9007199254740992.
      destruct (Z.compare_spec 7205759403792794 (Zpos m)) as [Hm|Hm|Hm];
        try discriminate; clear Hlo Hhi; split.
      all: try (apply Z.div_le_lower_bound; lia).
      all: try (apply Z.lt_succ_r, Z.div_lt_upper_bound; lia).
    + change (2 ^ (- (-53 + 1))) with 4503599627370496. clear Hlo Hhi. split.
      * apply Z.div_le_lower_bound; lia.
      * apply Z.lt_succ_r, Z.div_lt_upper_bound; lia.
    + change (2 ^ (- (-52 + 1))) with 2251799813685248.
      destruct (Z.compare_spec (Zpos m) 4503599627370496) as [Hm|Hm|Hm];
        try discriminate; clear Hlo Hhi; split.
      all: try (apply Z.div_le_lower_bound; lia).
      all: try (apply Z.lt_succ_r, Z.div_lt_upper_bound; lia).
Qed.

Lemma proxy_quantity (i : Ingredient) :
  isValid (ingScore i) = true ->
  ge (ingScore i) num_0_4 = true -> ge num_1 (ingScore i) = true ->
  exists q, pantryEntry i = Normal (mkPantryItem (className i) (Some q)) /\
            ge q (lit "0.8") = true /\ ge num_2 q = true.
Proof.
  unfold pantryEntry. destruct (ingScore i) as [s|[]| |[] m e]; try discriminate.
  unfold isValid. simpl valid_binary. intros Hb Hlo Hhi.
  destruct (double_confidence_value m e Hb Hlo Hhi) as (-> & Hbig & Hr).
  destruct (toFixed_parseFloat_finite false m (e + 1) 1 ltac:(lia) Hbig) as (txt & E & P).
  change (Z.of_nat 2) with 2 in E. rewrite E, bind_Normal.
  eexists. split; [reflexivity|]. rewrite P.
  change (- Z.of_nat 2) with (-2).
  pose proof (hundredths_80_200 _ Hr) as H. unfold hundredthsInRange in H.
  now apply andb_prop in H.
Qed.

End ProxyQuantity.

(** When the surviving confidences are canonical Numbers of at most 1,
    every emitted quantity lies between 0.8 and 2. *)
Theorem detected_quantity_range (predictions : list Prediction) :
  Forall (fun p => isValid (score p) = true /\ ge num_1 (score p) = true)
         (survivingDetections predictions) ->
  exists result,
    processDetections predictions = Normal result /\
    Forall (fun item => exists q, quantity item = Some q /\
                          ge q (lit "0.8") = true /\ ge num_2 q = true)
           (items result).
Proof.
  intros Hall.
  destruct (processDetections_returns predictions) as (pantry & F & R).
  eexists. split; [exact R|]. simpl.
  apply List.Forall_forall. intros item Hin.
  destruct (Forall2_In_r _ _ _ _ F Hin) as (d & Hd & Hitem).
  destruct (proj1 (List.Forall_forall _ _) Hall d Hd) as [Hv H1].
  apply filter_In in Hd as [_ Hs]. unfold survives in Hs.
  apply andb_prop in Hs as [Hs _].
  destruct (proxy_quantity (toIngredient d) Hv Hs H1) as (q & E & Hq).
  rewrite E in Hitem. injection Hitem as <-. exists q. simpl. tauto.
Qed.

Lemma detected_quantity_range_witness :
  exists result,
    processDetections [ mkPrediction "Apple" (lit "0.4"); mkPrediction "person" (lit "0.99");
                        mkPrediction "banana" (lit "0.87") ] = Normal result /\
    Forall (fun item => exists q, quantity item = Some q /\
                          ge q (lit "0.8") = true /\ ge num_2 q = true)
           (items result).
Proof.
  apply (detected_quantity_range
           [ mkPrediction "Apple" (lit "0.4"); mkPrediction "person" (lit "0.99");
             mkPrediction "banana" (lit "0.87") ]).
  apply List.Forall_forall. intros p Hp. vm_compute in Hp.
  destruct Hp as [<-|[<-|[]]]; split; reflexivity.
Defined.

(** ** The confidence shown as a percentage *)

Section StatusFacts.
Local Open Scope Z_scope.

Lemma mul_precise (mx my : positive) (ex ey : Z) :
  bounded prec emax mx ex = true -> bounded prec emax my ey = true ->
  ex + ey <= fexp prec emax (Zdigits2 (Zpos (mx * my)) + (ex + ey)).
Proof.
  intros Hx Hy.
  destruct (valid_facts _ _ Hx) as [Ex _]. destruct (valid_facts _ _ Hy) as [Ey _].
  pose proof (digits2_bounds mx) as [Lx _]. pose proof (digits2_bounds my) as [Ly _].
  set (dx := Zpos (digits2_pos mx)) in *. set (dy := Zpos (digits2_pos my)) in *.
  assert (Hdx : 0 < dx) by (unfold dx; lia). assert (Hdy : 0 < dy) by (unfold dy; lia).
  assert (HD : dx + dy - 1 <= Zdigits2 (Zpos (mx * my))).
  { replace (dx + dy - 1) with ((dx - 1 + (dy - 1)) + 1) by lia.
    apply Zdigits2_lower; [lia|].
    rewrite Z.pow_add_r by lia. rewrite Pos2Z.inj_mul. nia. }
  rewrite fexp_eq. lia.
Qed.

(** The product of two positive Numbers is [+0], positive or [+Infinity]. *)
Lemma mul_sign (mx my : positive) (ex ey : Z) :
  bounded prec emax mx ex = true -> bounded prec emax my ey = true ->
  mul (S754_finite false mx ex) (S754_finite false my ey) = S754_zero false \/
  isPositive false (mul (S754_finite false mx ex) (S754_finite false my ey)).
Proof.
  intros Hx Hy. unfold mul, SFmul. simpl xorb.
  apply binary_round_aux_sign; [lia | now apply mul_precise].
Qed.


Lemma percent_ofZ (n : Z) : 1 <= n <= 100 -> percentOK (ofZ n) = true.
Proof.
  intros H.
  assert (A : forallb (fun k => percentOK (ofZ (Z.of_nat k))) (seq 1 100) = true)
    by (vm_compute; reflexivity).
  rewrite forallb_forall in A.
  rewrite <- (Z2Nat.id n) by lia. apply A. apply in_seq. lia.
Qed.

(** Rounding a positive Number that does not exceed 100. *)
Lemma round_percent (m : positive) (e : Z) :
  bounded prec emax m e = true ->
  e < -46 \/ (e = -46 /\ Zpos m <= 7036874417766400) ->
  percentOK (JSMath.round (S754_finite false m e)) = true.
Proof.
  intros Hb He. destruct (bounded_facts _ _ Hb) as (_ & Hd & _).
  pose proof (digits2_bounds m) as [_ Hi].
  assert (Hm : Zpos m < 2 ^ 53).
  { eapply Z.lt_le_trans; [exact Hi|]. apply Z.pow_le_mono_r; lia. }
  change (2 ^ 53) with 9007199254740992 in Hm.
  unfold JSMath.round.
  destruct (Z.leb_spec 0 e) as [|_]; [lia|].
  set (P := 2 ^ (- e)).
  assert (HP : 0 < P) by (apply Z.pow_pos_nonneg; lia).
  assert (Hn : 0 <= (2 * Zpos m + P) / (2 * P) <= 100).
  { split; [apply Z.div_pos; lia|].
    apply Z.lt_succ_r, Z.div_lt_upper_bound; [lia|].
    destruct He as [He|[-> Hle]].
    - assert (2 ^ 47 <= P) by (apply Z.pow_le_mono_r; lia).
      change (2 ^ 47) with 140737488355328 in H. lia.
    - unfold P. change (2 ^ (- -46)) with 70368744177664. lia. }
  destruct (Z.eqb_spec ((2 * Zpos m + P) / (2 * P)) 0) as [_|Hnz]; [reflexivity|].
  apply percent_ofZ. lia.
Qed.

(** The percentage of a Number that is zero or above. *)
Lemma formatStatus_percentOK (status : number) :
  isValid status = true -> ge status num_0 = true ->
  percentOK (formatStatus status) = true.
Proof.
  intros Hv Hge. unfold formatStatus.
  destruct status as [s|[]| |[] m e]; try discriminate.
  - destruct s; vm_compute; reflexivity.
  - vm_compute; reflexivity.
  - unfold isValid in Hv. simpl valid_binary in Hv.
    assert (Hc : bounded prec emax 7036874417766400 (-46) = true) by reflexivity.
    pose proof (mul_valid (S754_finite false m e) num_100 Hv eq_refl) as Hx.
    change num_100 with (S754_finite false 7036874417766400 (-46)) in *.
    destruct (mul_sign m 7036874417766400 e (-46) Hv Hc) as [->|[(m' & e' & E)| ->]].
    + vm_compute; reflexivity.
    + rewrite E in *. unfold isValid in Hx. simpl valid_binary in Hx.
      unfold JSMath.min. rewrite SFcompare_finite_pos.
      destruct (Z.compare_spec e' (-46)) as [->|Hlt|Hgt].
      * destruct (Z.compare_spec (Zpos m') 7036874417766400) as [Hm|Hm|Hm].
        -- apply round_percent; [exact Hx | right; lia].
        -- apply round_percent; [exact Hx | right; lia].
        -- vm_compute; reflexivity.
      * apply round_percent; [exact Hx | left; lia].
      * vm_compute; reflexivity.
    + vm_compute; reflexivity.
Qed.

End StatusFacts.

(** [formatStatus] of a canonical Number that is zero or above is a whole
    number between 0 and 100: the percentage never exceeds 100. *)
Theorem formatStatus_percent (status : number) :
  isValid status = true -> ge status num_0 = true ->
  isInteger (formatStatus status) = true /\
  ge (formatStatus status) num_0 = true /\
  ge num_100 (formatStatus status) = true.
Proof.
  intros Hv Hge. pose proof (formatStatus_percentOK status Hv Hge) as H.
  unfold percentOK in H. apply andb_prop in H as [H H3]. apply andb_prop in H as [H1 H2].
  auto.
Qed.

Lemma formatStatus_percent_witness :
  isInteger (formatStatus (lit "0.635")) = true /\
  ge (formatStatus (lit "0.635")) num_0 = true /\
  ge num_100 (formatStatus (lit "0.635")) = true.
Proof. apply (formatStatus_percent (lit "0.635")); reflexivity. Defined.



(** ** The confidence of a detection run as a percentage *)

Section Sums.
Local Open Scope Z_scope.

Lemma iter_xO_nat (n : nat) (p : positive) :
  Zpos (Nat.iter n xO p) = Zpos p * 2 ^ Z.of_nat n.
Proof.
  induction n as [|n IH]; [simpl; lia|].
  rewrite Nat2Z.inj_succ, Z.pow_succ_r by lia.
  unfold Nat.iter in *. cbn [nat_rect]. rewrite Pos2Z.inj_xO, IH. lia.
Qed.

Lemma iter_xO (k p : positive) : Zpos (Pos.iter xO p k) = Zpos p * 2 ^ Zpos k.
Proof.
  pose proof (iter_xO_nat (Pos.to_nat k) p) as H. unfold Nat.iter in H.
  now rewrite Pos2Nat.inj_iter, H, positive_nat_Z.
Qed.

(** Aligning a mantissa to the exponent of the format keeps its value
    and leaves an exponent the rounding accepts. *)
Lemma shl_align_canonical (p : positive) (e : Z) :
  let r := shl_align p e (fexp prec emax (Zpos (digits2_pos p) + e)) in
  Zdigits2 (Zpos (fst r)) + snd r = Zpos (digits2_pos p) + e /\
  snd r <= fexp prec emax (Zpos (digits2_pos p) + e) /\
  Z.min e (-1074) <= snd r.
Proof.
  unfold shl_align. rewrite fexp_eq.
  destruct (Z.max (Zpos (digits2_pos p) + e - 53) (-1074) - e) as [|k|k] eqn:E;
    cbv zeta; simpl fst; simpl snd.
  - simpl. lia.
  - simpl. lia.
  - rewrite iter_xO, digits2_mul_pow2 by lia. lia.
Qed.

Lemma binary_round_sign (s : bool) (p : positive) (e : Z) :
  binary_round prec emax s p e = S754_zero s \/
  isPositive s (binary_round prec emax s p e).
Proof.
  unfold binary_round.
  pose proof (shl_align_canonical p e) as (H1 & H2 & _).
  destruct (shl_align p e _) as [mz ez]. simpl in H1, H2.
  apply binary_round_aux_sign; [lia|].
  change (Zdigits2 (Zpos mz)) with (Zpos (digits2_pos mz)). rewrite H1. exact H2.
Qed.

Lemma Zdigits2_upper (a k : Z) : 0 <= a -> 0 <= k -> a < 2 ^ k -> Zdigits2 a <= k.
Proof.
  intros H0 Hk Ha. destruct (Z.lt_ge_cases 0 a) as [Hp|Hn].
  - pose proof (Zdigits2_bounds a Hp) as [Lo _].
    destruct (Z.le_gt_cases (Zdigits2 a) k) as [|Hgt]; [assumption|].
    assert (2 ^ k <= 2 ^ (Zdigits2 a - 1)) by (apply Z.pow_le_mono_r; lia). lia.
  - destruct a; simpl; lia.
Qed.

(** Rounding does not overflow when the value is below [2^1023]. *)
Lemma binary_round_aux_finite (s : bool) (m e : Z) (l : location) :
  0 <= m -> e <= fexp prec emax (Zdigits2 m + e) -> Zdigits2 m + e <= 1023 ->
  binary_round_aux prec emax s m e l <> S754_infinity s.
Proof.
  intros Hm He Hd. unfold binary_round_aux.
  pose proof (shr_fexp_canonical m e l Hm He) as (E1 & N1 & C1 & Z1).
  destruct (shr_fexp prec emax m e l) as [mrs e1]. simpl in E1, N1, C1, Z1.
  set (m2 := round_nearest_even (shr_m mrs) (loc_of_shr_record mrs)).
  assert (H2 : shr_m mrs <= m2 <= shr_m mrs + 1).
  { unfold m2. destruct (loc_of_shr_record mrs) as [|[]]; simpl; try lia.
    destruct (Z.even (shr_m mrs)); lia. }
  assert (He1 : e1 <= fexp prec emax (Zdigits2 m2 + e1)).
  { destruct (Z.eq_dec (shr_m mrs) 0) as [Hz|Hnz].
    - rewrite (Z1 Hz), fexp_eq. lia.
    - assert (Hpos : 0 < shr_m mrs) by lia.
      pose proof (Zdigits2_mono (shr_m mrs) m2 Hpos ltac:(lia)).
      specialize (C1 Hpos). rewrite fexp_eq in *. lia. }
  assert (Hd2 : Zdigits2 m2 <= 54).
  { apply Zdigits2_upper; [lia | lia |].
    destruct (Z.eq_dec (shr_m mrs) 0) as [Hz|Hnz].
    - change (2 ^ 54) with 18014398509481984. lia.
    - assert (Hpos : 0 < shr_m mrs) by lia.
      specialize (C1 Hpos). rewrite fexp_eq in C1.
      pose proof (Zdigits2_bounds _ Hpos) as [_ Hi].
      assert (2 ^ Zdigits2 (shr_m mrs) <= 2 ^ 53) by (apply Z.pow_le_mono_r; lia).
      change (2 ^ 53) with 9007199254740992 in H.
      change (2 ^ 54) with 18014398509481984. lia. }
  pose proof (shr_fexp_canonical m2 e1 loc_Exact ltac:(lia) He1) as (E2 & N2 & C2 & _).
  destruct (shr_fexp prec emax m2 e1 loc_Exact) as [mrs2 e2]. simpl in E2, N2, C2.
  rewrite fexp_eq in E1, E2.
  destruct (shr_m mrs2) as [|p|p]; try discriminate.
  destruct (Z.leb_spec e2 (emax - prec)) as [_|Hgt]; [discriminate|].
  change (emax - prec) with 971 in Hgt. lia.
Qed.

(** The Number of a positive integer below [2^1023] is positive and finite. *)
Lemma ofZ_positive (n : Z) :
  1 <= n < 2 ^ 1023 -> exists m e, ofZ n = S754_finite false m e.
Proof.
  intros [Hlo Hhi]. destruct n as [|p|p]; try lia.
  unfold ofZ, binary_normalize, binary_round.
  pose proof (shl_align_canonical p 0) as (H1 & H2 & H3).
  destruct (shl_align p 0 _) as [mz ez]. simpl in H1, H2, H3.
  assert (Hd : Zpos (digits2_pos p) <= 1023).
  { change (Zpos (digits2_pos p)) with (Zdigits2 (Zpos p)). apply Zdigits2_upper; lia. }
  pose proof (binary_round_aux_pos false (Zpos mz) ez loc_Exact ltac:(lia) ltac:(lia))
    as [(m & e & E)|E].
  - eauto.
  - exfalso. revert E.
    apply binary_round_aux_finite;
      change (Zdigits2 (Zpos mz)) with (Zpos (digits2_pos mz)); rewrite ?H1; lia.
Qed.

Lemma add_nonNegative (x y : number) :
  nonNegative x -> nonNegative y -> nonNegative (add x y).
Proof.
  intros [->|[(mx & ex & ->)| ->]] [->|[(my & ey & ->)| ->]];
    try (left; reflexivity); try (right; left; eauto; fail);
    try (right; right; reflexivity).
  unfold add, SFadd. cbv zeta. unfold cond_Zopp.
  rewrite <- Pos2Z.inj_add. unfold binary_normalize. apply binary_round_sign.
Qed.

Lemma sum_nonNegative (l : list number) :
  Forall nonNegative l -> forall acc, nonNegative acc -> nonNegative (fold_left add l acc).
Proof.
  induction 1 as [|x l Hx _ IH]; intros acc Hacc; simpl; [exact Hacc|].
  apply IH. now apply add_nonNegative.
Qed.

Lemma div_nonNegative (x : number) (m : positive) (e : Z) :
  nonNegative x -> nonNegative (div x (S754_finite false m e)).
Proof.
  intros [->|[(mx & ex & ->)| ->]].
  - left. reflexivity.
  - unfold div, SFdiv. simpl xorb.
    pose proof (SFdiv_core_precise mx m ex e) as [H1 H2].
    destruct (SFdiv_core_binary prec emax (Zpos mx) ex (Zpos m) e) as [[q e'] l].
    simpl in H1, H2. now apply binary_round_aux_sign.
  - right. right. reflexivity.
Qed.

Lemma threshold_nonNegative (x : number) : ge x num_0_4 = true -> nonNegative x.
Proof.
  destruct x as [[]|[]| |[] m e]; try discriminate; intros _.
  - right. right. reflexivity.
  - right. left. eauto.
Qed.

End Sums.

(** For the predictions of one image (an array: fewer than 2^32 of them),
    whatever their confidences, the percentage [formatStatus] makes of the
    aggregate confidence is a whole number between 0 and 100. *)
Theorem confidence_percent (predictions : list Prediction) :
  (Z.of_nat (List.length predictions) < 2 ^ 32)%Z ->
  exists result,
    processDetections predictions = Normal result /\
    isInteger (formatStatus (aggregateConfidence result)) = true /\
    ge (formatStatus (aggregateConfidence result)) num_0 = true /\
    ge num_100 (formatStatus (aggregateConfidence result)) = true.
Proof.
  intros Hlen.
  destruct (processDetections_returns predictions) as (pantry & F & R).
  eexists. split; [exact R|]. simpl aggregateConfidence.
  assert (H : percentOK (formatStatus
                match survivingDetections predictions with
                | [] => num_0
                | _ :: _ => meanOf (map score (survivingDetections predictions))
                end) = true).
  { assert (Hs : Forall nonNegative (map score (survivingDetections predictions))).
    { apply List.Forall_forall. intros x Hx. apply in_map_iff in Hx as (d & <- & Hd).
      apply filter_In in Hd as [_ Hd]. unfold survives in Hd.
      apply andb_prop in Hd as [Hd _]. now apply threshold_nonNegative. }
    assert (Hn : (Z.of_nat (List.length (map score (survivingDetections predictions)))
                  < 2 ^ 32)%Z).
    { rewrite length_map. unfold survivingDetections.
      pose proof (List.filter_length_le survives predictions). lia. }
    destruct (survivingDetections predictions) as [|d l]; [vm_compute; reflexivity|].
    unfold meanOf, sumOf.
    destruct (ofZ_positive (Z.of_nat (List.length (map score (d :: l))))) as (m & e & ->).
    { split; [simpl List.length; lia|].
      eapply Z.lt_trans; [exact Hn|]. apply Z.pow_lt_mono_r; lia. }
    apply formatStatus_percentOK; [apply div_valid|].
    apply nonneg_ge_zero, div_nonNegative, sum_nonNegative; [exact Hs|].
    left. reflexivity. }
  unfold percentOK in H. apply andb_prop in H as [H H3]. apply andb_prop in H as [H1 H2].
  auto.
Qed.

Lemma confidence_percent_witness :
  exists result,
    processDetections [ mkPrediction "Apple" (lit "0.4"); mkPrediction "person" (lit "0.99");
                        mkPrediction "banana" (lit "0.87") ] = Normal result /\
    isInteger (formatStatus (aggregateConfidence result)) = true /\
    ge (formatStatus (aggregateConfidence result)) num_0 = true /\
    ge num_100 (formatStatus (aggregateConfidence result)) = true.
Proof.
  apply (confidence_percent
           [ mkPrediction "Apple" (lit "0.4"); mkPrediction "person" (lit "0.99");
             mkPrediction "banana" (lit "0.87") ]).
  reflexivity.
Defined.

(** ** Title case *)

Section TitleCaseFacts.

Lemma join_app (sep : string) (l1 l2 : list string) :
  l1 <> [] -> l2 <> [] ->
  join sep (l1 ++ l2)%list = join sep l1 ++ sep ++ join sep l2.
Proof.
  intros H1 H2. induction l1 as [|x l IH]; [congruence|].
  destruct l as [|y l'].
  - destruct l2 as [|z l2']; [congruence | reflexivity].
  - change (join sep ((x :: y :: l') ++ l2)%list)
      with (x ++ sep ++ join sep ((y :: l') ++ l2)%list).
    rewrite IH by discriminate.
    change (join sep (x :: y :: l')) with (x ++ sep ++ join sep (y :: l')).
    now rewrite !append_assoc.
Qed.

Lemma split_whole (sep : ascii -> bool) (s : string) :
  existsChar sep s = false -> split sep s = [s].
Proof.
  induction s as [|c r IH]; simpl; [reflexivity|].
  intros H. apply orb_false_elim in H as [-> H]. now rewrite (IH H).
Qed.

End TitleCaseFacts.

(** [toTitleCase] works word by word, whatever upper-casing does: every
    space of the value is kept where it is, and a value without a space
    has its first code unit upper-cased and its remainder unchanged. *)
Theorem title_case_words (toUpperCase : string -> string) :
  (forall a b : string,
      toTitleCase toUpperCase (a ++ " " ++ b) =
      toTitleCase toUpperCase a ++ " " ++ toTitleCase toUpperCase b) /\
  (forall word : string,
      existsChar (isChar " ") word = false ->
      toTitleCase toUpperCase word = toUpperCase (charAt0 word) ++ slice1 word).
Proof.
  split.
  - intros a b. unfold toTitleCase.
    change (" " ++ b) with (String " " b).
    rewrite (split_app (isChar " ") a b " " eq_refl), List.map_app.
    apply join_app; intros E; apply map_eq_nil in E; now apply split_nonempty in E.
  - intros word H. unfold toTitleCase. now rewrite (split_whole _ _ H).
Qed.

(* ===================================================================== *)
(** * Worked examples *)
(* ===================================================================== *)

(** The model of Number agrees with the machine's binary64: literals are
    read as the hardware reads them, and the operations round alike. *)
Example literal_0_4 : lit "0.4" = Prim2SF 0.4.
Proof. vm_compute. reflexivity. Qed.

Example literal_0_005 : num_0_005 = Prim2SF 0.005.
Proof. vm_compute. reflexivity. Qed.

Example literal_long : lit "1125899906842624.3" = Prim2SF 1125899906842624.3.
Proof. vm_compute. reflexivity. Qed.

Example literal_subnormal : lit "4.9e-324" = Prim2SF 4.9e-324.
Proof. vm_compute. reflexivity. Qed.

Example literal_overflow : lit "1.8e308" = Prim2SF infinity.
Proof. vm_compute. reflexivity. Qed.

Example product_rounds : mul (lit "1.1") (lit "10") = Prim2SF (1.1 * 10).
Proof. vm_compute. reflexivity. Qed.

Example quotient_rounds : div num_1 (lit "3") = Prim2SF (1 / 3).
Proof. vm_compute. reflexivity. Qed.

Example sum_rounds : add (lit "0.1") (lit "0.2") = Prim2SF (0.1 + 0.2).
Proof. vm_compute. reflexivity. Qed.

Example length_as_number : ofZ 3 = Prim2SF 3.
Proof. vm_compute. reflexivity. Qed.

(** [toFixed] works on the exact binary value: 1.005 lies just below the
    decimal 1.005, 8.345 just above 8.345, and a tie goes up. *)
Example toFixed_below_half : toFixed (lit "1.005") 2 = Normal "1.00".
Proof. vm_compute. reflexivity. Qed.

Example toFixed_above_half : toFixed (lit "8.345") 2 = Normal "8.35".
Proof. vm_compute. reflexivity. Qed.

Example toFixed_tie : toFixed (lit "0.375") 2 = Normal "0.38".
Proof. vm_compute. reflexivity. Qed.

Example toFixed_negative_small : toFixed (lit "-0.001") 2 = Normal "-0.00".
Proof. vm_compute. reflexivity. Qed.

Example toFixed_large : toFixed (lit "1180591620717411303424") 2 = Normal "1.1805916207174113e+21".
Proof. vm_compute. reflexivity. Qed.

Example toFixed_digits_range : toFixed num_1 101 = Throw RangeError.
Proof. vm_compute. reflexivity. Qed.

Example parseFloat_prefix : parseFloat "  -12.5abc" = lit "-12.5".
Proof. vm_compute. reflexivity. Qed.

Example parseFloat_exponent : parseFloat "1.1805916207174113e+21" = lit "1180591620717411303424".
Proof. vm_compute. reflexivity. Qed.

(** The pattern backtracks: in "1 lime" the optional unit first takes
    "lime", finds no whitespace after it, and is given up. *)
Example entry_without_unit :
  parseEntry "1 lime" = {| name := "lime"; quantity := Some num_1 |}.
Proof. vm_compute. reflexivity. Qed.

Example entry_with_unit :
  parseEntry "12.50kg Flour" = {| name := "kg Flour"; quantity := Some (lit "12.5") |}.
Proof. vm_compute. reflexivity. Qed.

Example entry_number_as_unit :
  parseEntry "2 3 eggs" = {| name := "3 eggs"; quantity := Some num_2 |}.
Proof. vm_compute. reflexivity. Qed.

Example entry_no_match : parseEntry "1.5.2 x" = {| name := "1.5.2 x"; quantity := None |}.
Proof. vm_compute. reflexivity. Qed.

Example scaled_pancakes :
  adjustedIngredients pancakes (lit "6") =
  Normal [ mkIngredientLine "flour" (lit "3") "cups";
           mkIngredientLine "salt" (lit "0.38") "tsp" ].
Proof. vm_compute. reflexivity. Qed.

Example scaled_without_base_servings :
  adjustedIngredients
    (mkRecipe "r" "R" "c" "d" [] num_0 [ mkRecipeIngredient "flour" num_2 "cups" ] [])
    (lit "4")
  = Normal [ mkIngredientLine "flour" (S754_infinity false) "cups" ].
Proof. vm_compute. reflexivity. Qed.

Example detections_processed :
  processDetections
    [ mkPrediction "Apple" (lit "0.4"); mkPrediction "car" (lit "0.9");
      mkPrediction "banana" (lit "0.399"); mkPrediction "Bell Pepper" (lit "0.87") ]
  = Normal {| items := [ {| name := "apple"; quantity := Some (lit "0.8") |};
                         {| name := "bell pepper"; quantity := Some (lit "1.74") |} ];
              aggregateConfidence := div (add (lit "0.4") (lit "0.87")) num_2 |}.
Proof. vm_compute. reflexivity. Qed.

Example formatStatus_rounds : formatStatus (lit "0.635") = lit "64".
Proof. vm_compute. reflexivity. Qed.

Example formatStatus_clamps : formatStatus (lit "1.7") = lit "100".
Proof. vm_compute. reflexivity. Qed.

Example round_half_up :
  JSMath.round (lit "2.5") = lit "3" /\ JSMath.round (lit "-2.5") = lit "-2" /\
  JSMath.round (lit "0.49999999999999994") = lit "0" /\
  JSMath.round (lit "-0.5") = lit "-0".
Proof. vm_compute. auto. Qed.

Example min_of_zeros_and_nan :
  JSMath.min (lit "-0") (lit "0") = lit "-0" /\
  JSMath.min (lit "0") (lit "-0") = lit "-0" /\
  JSMath.min S754_nan num_1 = S754_nan /\
  JSMath.min (lit "100.5") num_100 = num_100.
Proof. vm_compute. auto. Qed.

Example toFixed_seventeen_digits :
  toFixed (S754_finite false 8842644891370964 27) 2 = Normal "1.1868397068306176e+24" /\
  toFixed (Prim2SF 1e21) 2 = Normal "1e+21" /\
  toFixed (Prim2SF (-123456789012345680000000)) 1 = Normal "-1.2345678901234569e+23".
Proof. vm_compute. auto. Qed.
